(** * Product API: query normalisation, filters, updates and statistics

    A shallow embedding of the Express/Mongoose product service
    (routes/productRoutes.js, middleware/validation.js, middleware/auth.js,
    middleware/errorHandler.js, models/products.js) and the properties of
    its listing, search, statistics and by-identity routes.

    Conventions of the embedding:
    - a JavaScript string is a [string]: a sequence of code units, here
      restricted to the code units below 256;
    - a JavaScript number is a [JS.number]: an exact rational, [NaN] or an
      infinity.  [parseInt] and [parseFloat] round what they read to the
      nearest binary64 value ([JS.round64]).  The arithmetic of the routes
      ([JS.add], [JS.sub], [JS.mul], [JS.div]) is exact: it is the binary64
      arithmetic as long as the operands and the result are integers below
      2^53, and the properties that rest on it state that range;
    - the document store (Mongoose over MongoDB) is a list of products; each
      store call is a pure function returning the outcome and the new
      store, and a rejected promise is an [Err]. *)

From Stdlib Require Import ZArith QArith Qround Qabs Ascii String List Bool Lia.
From Stdlib Require Import DecimalString.
From stdpp Require Import base tactics option list sorting.

Local Open Scope string_scope.
Local Open Scope Z_scope.

(** ** The JavaScript runtime the routes rely on *)

Module JS.

(** Numbers. *)
Inductive number : Type :=
| Num (q : Q)
| NaN
| PosInf
| NegInf.

Definition of_Z (z : Z) : number := Num (inject_Z z).

(** [lt a b] is the JavaScript comparison [a < b]; it is false as soon as
    one side is [NaN]. *)
Definition lt (a b : number) : bool :=
  match a, b with
  | NaN, _ | _, NaN => false
  | _, NegInf => false
  | NegInf, _ => true
  | PosInf, _ => false
  | _, PosInf => true
  | Num x, Num y => negb (Qle_bool y x)
  end.

(** [le a b] is [a <= b]. *)
Definition le (a b : number) : bool :=
  match a, b with
  | NaN, _ | _, NaN => false
  | NegInf, _ => true
  | _, PosInf => true
  | _, NegInf => false
  | PosInf, _ => false
  | Num x, Num y => Qle_bool x y
  end.

Definition isNaN (a : number) : bool :=
  match a with NaN => true | _ => false end.

(** [Math.max(a, b)] and [Math.min(a, b)]: [NaN] if an argument is [NaN]. *)
Definition Math_max (a b : number) : number :=
  match a, b with
  | NaN, _ | _, NaN => NaN
  | _, _ => if lt a b then b else a
  end.

Definition Math_min (a b : number) : number :=
  match a, b with
  | NaN, _ | _, NaN => NaN
  | _, _ => if lt b a then b else a
  end.

Definition neg (a : number) : number :=
  match a with
  | Num x => Num (- x)
  | NaN => NaN
  | PosInf => NegInf
  | NegInf => PosInf
  end.

(** [a + b], [a - b], [a * b] and [a / b] on the exact values.  A sum,
    difference or product is the binary64 result as long as the operands
    and the result are integers below 2^53 in magnitude; a quotient is the
    binary64 one up to its rounding. *)
Definition add (a b : number) : number :=
  match a, b with
  | NaN, _ | _, NaN => NaN
  | PosInf, NegInf | NegInf, PosInf => NaN
  | PosInf, _ | _, PosInf => PosInf
  | NegInf, _ | _, NegInf => NegInf
  | Num x, Num y => Num (x + y)
  end.

Definition sub (a b : number) : number := add a (neg b).

Definition sign_of (x : Q) : comparison := (Qnum x ?= 0)%Z.

Definition mul (a b : number) : number :=
  match a, b with
  | NaN, _ | _, NaN => NaN
  | Num x, Num y => Num (x * y)
  | Num x, PosInf | PosInf, Num x =>
      match sign_of x with Eq => NaN | Gt => PosInf | Lt => NegInf end
  | Num x, NegInf | NegInf, Num x =>
      match sign_of x with Eq => NaN | Gt => NegInf | Lt => PosInf end
  | PosInf, PosInf | NegInf, NegInf => PosInf
  | PosInf, NegInf | NegInf, PosInf => NegInf
  end.

Definition div (a b : number) : number :=
  match a, b with
  | NaN, _ | _, NaN => NaN
  | Num x, Num y =>
      match sign_of y with
      | Eq => match sign_of x with Eq => NaN | Gt => PosInf | Lt => NegInf end
      | _ => Num (x / y)
      end
  | Num _, _ => Num 0
  | _, Num y =>
      match sign_of y with
      | Lt => neg a
      | _ => a
      end
  | _, _ => NaN
  end.

Definition Math_ceil (a : number) : number :=
  match a with
  | Num x => of_Z (Qceiling x)
  | _ => a
  end.

(** [Math.round]: the nearest integer, a half going up. *)
Definition Math_round (a : number) : number :=
  match a with
  | Num x => of_Z (Qfloor (x + (1 # 2)))
  | _ => a
  end.

(** Rounding to binary64.  [roundTiesToEven x] is the integer nearest to
    [x], the even one of two. *)
Definition roundTiesToEven (x : Q) : Z :=
  let f := Qfloor x in
  match Qcompare (x - inject_Z f) (1 # 2) with
  | Lt => f
  | Gt => f + 1
  | Eq => if Z.even f then f else f + 1
  end.

(** [scale_down q t] is [q / 2^t] and [scale_up m t] is [m * 2^t]. *)
Definition scale_down (q : Q) (t : Z) : Q :=
  if 0 <=? t then (q / inject_Z (2 ^ t))%Q else (q * inject_Z (2 ^ (- t)))%Q.

Definition scale_up (m : Z) (t : Z) : Q :=
  if 0 <=? t then inject_Z (m * 2 ^ t)
  else (inject_Z m / inject_Z (2 ^ (- t)))%Q.

(** The binary exponent of a positive rational [q]: the [e] with
    [2^e <= q < 2^(e+1)]. *)
Definition exponent (q : Q) : Z :=
  let e0 := Z.log2 (Qnum q) - Z.log2 (Zpos (Qden q)) in
  if Qle_bool (scale_up 1 e0) q then e0 else e0 - 1.

(** The binary64 value nearest to a positive rational: 53 significant
    bits, no bit below 2^-1074, and [Infinity] from 2^1024 on. *)
Definition round64_pos (q : Q) : number :=
  let t := Z.max (exponent q - 52) (-1074) in
  let v := scale_up (roundTiesToEven (scale_down q t)) t in
  if Qle_bool (scale_up 1 1024) v then PosInf else Num (Qred v).

Definition round64 (q : Q) : number :=
  match Qnum q with
  | Z0 => Num 0
  | Zpos _ => round64_pos q
  | Zneg _ => neg (round64_pos (- q))
  end.

(** Strings. *)

Definition code (c : ascii) : Z := Z.of_nat (nat_of_ascii c).

(** White space and line terminators (the code units below 256 that
    [String.prototype.trim], [parseInt] and [parseFloat] strip). *)
Definition isWhiteSpace (c : ascii) : bool :=
  let n := code c in
  ((9 <=? n) && (n <=? 13)) || (n =? 32) || (n =? 160).

Fixpoint trimStart (s : string) : string :=
  match s with
  | String c s' => if isWhiteSpace c then trimStart s' else s
  | EmptyString => EmptyString
  end.

Definition isEmpty (s : string) : bool :=
  match s with EmptyString => true | _ => false end.

Fixpoint trimEnd (s : string) : string :=
  match s with
  | String c s' =>
      let t := trimEnd s' in
      if isWhiteSpace c && isEmpty t then EmptyString else String c t
  | EmptyString => EmptyString
  end.

Definition trim (s : string) : string := trimEnd (trimStart s).

Definition startsWith (s : string) (p : string) : bool := String.prefix p s.

(** [s.substring(1)]. *)
Definition substring1 (s : string) : string :=
  match s with String _ s' => s' | EmptyString => EmptyString end.

(** Value of a digit in a radix up to 36. *)
Definition digit_value (c : ascii) : option Z :=
  let n := code c in
  if (48 <=? n) && (n <=? 57) then Some (n - 48)
  else if (97 <=? n) && (n <=? 122) then Some (n - 87)
  else if (65 <=? n) && (n <=? 90) then Some (n - 55)
  else None.

(** The longest prefix of [s] made of digits of radix [R], as digit values,
    and the rest of the string. *)
Fixpoint radix_digits (R : Z) (s : string) : list Z * string :=
  match s with
  | String c s' =>
      match digit_value c with
      | Some d =>
          if d <? R then
            let '(ds, r) := radix_digits R s' in (d :: ds, r)
          else ([], s)
      | None => ([], s)
      end
  | EmptyString => ([], EmptyString)
  end.

Definition digits_value (R : Z) (ds : list Z) : Z :=
  fold_left (fun acc d => acc * R + d) ds 0.

(** [parseInt(string)] with no radix argument: the integer that the
    digits denote, as a binary64 number. *)
Definition parseInt_string (s : string) : number :=
  let str := trimStart s in
  let '(sign, str) :=
    match str with
    | String "-" r => (-1, r)
    | String "+" r => (1, r)
    | _ => (1, str)
    end in
  let '(R, str) :=
    match str with
    | String "0" (String "x" r) => (16, r)
    | String "0" (String "X" r) => (16, r)
    | _ => (10, str)
    end in
  match fst (radix_digits R str) with
  | [] => NaN
  | ds => round64 (inject_Z (sign * digits_value R ds))
  end.

(** A destructured query parameter: the raw string of the request, or the
    integer literal that the destructuring pattern gives as its default. *)
Inductive param : Type :=
| PInt (z : Z)
| PStr (s : string).

Definition with_default (d : Z) (raw : option string) : param :=
  match raw with
  | Some s => PStr s
  | None => PInt d
  end.

(** [String(z)] for an integer. *)
Definition Z_toString (z : Z) : string := NilZero.string_of_int (Z.to_int z).

(** Two decimal digits of a number below 100. *)
Definition two_digits (z : Z) : string :=
  if z <? 10 then String.append "0" (Z_toString z) else Z_toString z.

(** [x.toFixed(2)]: the integer [n] nearest to [100 x] (the larger one of
    two), written with two decimals. *)
Definition toFixed2 (a : number) : string :=
  match a with
  | Num x =>
      let ax := Qabs x in
      let n := Qfloor (ax * 100 + (1 # 2)) in
      String.append (if Qle_bool 0 x then "" else "-")
        (String.append (Z_toString (n / 100))
           (String.append "." (two_digits (n mod 100))))
  | NaN => "NaN"
  | PosInf => "Infinity"
  | NegInf => "-Infinity"
  end.

(** [parseInt(v)]: the argument is first converted to a string. *)
Definition parseInt (v : param) : number :=
  match v with
  | PStr s => parseInt_string s
  | PInt z => parseInt_string (Z_toString z)
  end.

(** [parseFloat(string)]: the longest prefix that is a decimal literal
    ([Infinity], or digits with an optional fraction and exponent), as a
    binary64 number. *)
Definition pow10 (e : Z) : Q :=
  if 0 <=? e then inject_Z (10 ^ e) else 1 / inject_Z (10 ^ (- e)).

Definition isExponentIndicator (c : ascii) : bool :=
  (code c =? 101) || (code c =? 69).

(** The exponent part at the head of [s], when there is a complete one. *)
Definition exponent_part (s : string) : Z :=
  match s with
  | String e r =>
      if isExponentIndicator e then
        let '(sg, r') :=
          match r with
          | String "-" r' => (-1, r')
          | String "+" r' => (1, r')
          | _ => (1, r)
          end in
        match fst (radix_digits 10 r') with
        | [] => 0
        | ds => sg * digits_value 10 ds
        end
      else 0
  | EmptyString => 0
  end.

Definition parseFloat (s : string) : number :=
  let str := trimStart s in
  let '(neg_sign, str) :=
    match str with
    | String "-" r => (true, r)
    | String "+" r => (false, r)
    | _ => (false, str)
    end in
  let signed (n : number) := if neg_sign : bool then neg n else n in
  if String.prefix "Infinity" str then signed PosInf
  else
    let '(ip, r1) := radix_digits 10 str in
    let '(fp, r2) :=
      match r1 with
      | String "." r => radix_digits 10 r
      | _ => ([], r1)
      end in
    match ip, fp with
    | [], [] => NaN
    | _, _ =>
        let mant := digits_value 10 (ip ++ fp) in
        let e := exponent_part r2 - Z.of_nat (List.length fp) in
        signed (round64 (inject_Z mant * pow10 e))
    end.

End JS.

(** ** Regular expressions

    The category and search filters hand the caller's text to the regular
    expression engine as a pattern.  The fragment of the pattern language
    embedded here: literal characters, [.], the anchors [^] and [$], the
    quantifiers [*], [+] and [?] on a single character, and a backslash
    before a syntax character.  [compile] gives [None] on every other
    pattern (groups, classes, alternation, braces, class escapes, lazy
    quantifiers) and on text that is no pattern at all. *)

Module RegExp.

Inductive atom : Type :=
| Char (c : ascii)
| Any.

Inductive quantifier : Type := One | Star | Plus | Opt.

Inductive term : Type :=
| Bol
| Eol
| Atom (a : atom) (q : quantifier).

Definition pattern : Type := list term.

Inductive token : Type :=
| TAtom (a : atom)
| TBol
| TEol
| TQuant (q : quantifier)
| TOther.

Definition classify (c : ascii) : token :=
  match c with
  | "^" => TBol
  | "$" => TEol
  | "." => TAtom Any
  | "*" => TQuant Star
  | "+" => TQuant Plus
  | "?" => TQuant Opt
  | "(" | ")" | "[" | "]" | "{" | "}" | "|" | "\" => TOther
  | _ => TAtom (Char c)
  end%char.

Definition isSyntaxCharacter (c : ascii) : bool :=
  match classify c with
  | TAtom (Char _) => false
  | _ => true
  end.

Fixpoint tokenize (s : string) : option (list token) :=
  match s with
  | EmptyString => Some []
  | String "\" (String c r) =>
      if isSyntaxCharacter c || Ascii.eqb c "/"
      then cons (TAtom (Char c)) <$> tokenize r
      else None
  | String c r =>
      match classify c with
      | TOther => None
      | t => cons t <$> tokenize r
      end
  end.

Fixpoint assemble (ts : list token) : option pattern :=
  match ts with
  | [] => Some []
  | TBol :: r => cons Bol <$> assemble r
  | TEol :: r => cons Eol <$> assemble r
  | TAtom a :: r =>
      match r with
      | TQuant q :: r' => cons (Atom a q) <$> assemble r'
      | _ => cons (Atom a One) <$> assemble r
      end
  | TQuant _ :: _ => None
  | TOther :: _ => None
  end.

Definition compile (source : string) : option pattern :=
  tokenize source ≫= assemble.

(** Case folding of the [i] flag: the upper-case form of a code unit. *)
Definition canonicalize (c : ascii) : ascii :=
  let n := JS.code c in
  if ((97 <=? n) && (n <=? 122))
     || ((224 <=? n) && (n <=? 254) && negb (n =? 247))
  then ascii_of_nat (Z.to_nat (n - 32))
  else c.

Definition isLineTerminator (c : ascii) : bool :=
  (JS.code c =? 10) || (JS.code c =? 13).

Definition atom_matches (ignoreCase : bool) (a : atom) (c : ascii) : bool :=
  match a with
  | Any => negb (isLineTerminator c)
  | Char d =>
      if ignoreCase then Ascii.eqb (canonicalize c) (canonicalize d)
      else Ascii.eqb c d
  end.

(** [match_here i p at_start s]: some prefix of [s] matches [p], where
    [at_start] tells whether [s] starts at the beginning of the input. *)
Fixpoint match_here (i : bool) (p : pattern) (at_start : bool) (s : string)
  : bool :=
  match p with
  | [] => true
  | Bol :: p' => at_start && match_here i p' at_start s
  | Eol :: p' => JS.isEmpty s && match_here i p' at_start s
  | Atom a One :: p' =>
      match s with
      | String c s' => atom_matches i a c && match_here i p' false s'
      | EmptyString => false
      end
  | Atom a Opt :: p' =>
      match_here i p' at_start s
      || match s with
         | String c s' => atom_matches i a c && match_here i p' false s'
         | EmptyString => false
         end
  | Atom a Star :: p' =>
      (fix star (at_start : bool) (s : string) : bool :=
         match_here i p' at_start s
         || match s with
            | String c s' => atom_matches i a c && star false s'
            | EmptyString => false
            end) at_start s
  | Atom a Plus :: p' =>
      match s with
      | String c s' =>
          atom_matches i a c
          && (fix star (at_start : bool) (s : string) : bool :=
                match_here i p' at_start s
                || match s with
                   | String c s' => atom_matches i a c && star false s'
                   | EmptyString => false
                   end) false s'
      | EmptyString => false
      end
  end.

Fixpoint search (i : bool) (p : pattern) (at_start : bool) (s : string)
  : bool :=
  match_here i p at_start s
  || match s with
     | String _ s' => search i p false s'
     | EmptyString => false
     end.

(** [new RegExp(source, flags).test(s)] for a compiled pattern. *)
Definition test (i : bool) (p : pattern) (s : string) : bool :=
  search i p true s.

End RegExp.

(** ** Outcomes of store calls *)

Inductive error : Type :=
| CastError        (* a value cannot be cast to the type of its path *)
| ValidationError  (* a schema validator refused a document or update *)
| DuplicateKey     (* error code 11000 of the store *)
| DivideByZero.    (* [$divide] with a zero divisor *)

Inductive result (A : Type) : Type :=
| Ok (a : A)
| Err (e : error).
Arguments Ok {A} a.
Arguments Err {A} e.

Definition bind {A B} (r : result A) (k : A -> result B) : result B :=
  match r with
  | Ok a => k a
  | Err e => Err e
  end.

Notation "'let*' x ':=' r 'in' k" := (bind r (fun x => k))
  (at level 10, x pattern, r at level 100, k at level 200, only parsing).

Fixpoint traverse {A B} (f : A -> result B) (l : list A) : result (list B) :=
  match l with
  | [] => Ok []
  | a :: l' =>
      let* b := f a in
      let* bs := traverse f l' in
      Ok (b :: bs)
  end.

(** ** The product model (models/products.js) and the store *)

Module Product.

(** A stored document of [ProductSchema], with the time stamps that
    [{timestamps: true}] adds. *)
Record t : Type := mk {
  _id : string;
  name : string;
  description : string;
  price : Q;
  category : string;
  inStock : bool;
  createdAt : Z;
  updatedAt : Z
}.

Definition store : Type := list t.

(** An identity is well formed when it is 24 hexadecimal digits. *)
Definition isHexDigit (c : ascii) : bool :=
  match JS.digit_value c with
  | Some d => d <? 16
  | None => false
  end.

Fixpoint all_chars (f : ascii -> bool) (s : string) : bool :=
  match s with
  | String c s' => f c && all_chars f s'
  | EmptyString => true
  end.

Definition isValidObjectId (id : string) : bool :=
  (String.length id =? 24)%nat && all_chars isHexDigit id.

(** An ObjectId is the twelve bytes that the 24 digits spell: the case of
    a digit is no part of it.  [canonical id] is the spelling in lower
    case, the one that the store writes, and two texts are the same
    identity when their canonical spellings agree. *)
Definition lower_hex (c : ascii) : ascii :=
  let n := JS.code c in
  if (65 <=? n) && (n <=? 70) then ascii_of_nat (Z.to_nat (n + 32)) else c.

Fixpoint canonical (id : string) : string :=
  match id with
  | String c s => String (lower_hex c) (canonical s)
  | EmptyString => EmptyString
  end.

Definition same_id (a b : string) : bool :=
  String.eqb (canonical a) (canonical b).

(** Casting the identity of a query to an ObjectId: a malformed one is a
    [CastError]. *)
Definition castObjectId (id : string) : result string :=
  if isValidObjectId id then Ok (canonical id) else Err CastError.

(** The product of identity [id], compared as ObjectIds. *)
Fixpoint lookup (id : string) (st : store) : option t :=
  match st with
  | [] => None
  | p :: st' => if same_id (_id p) id then Some p else lookup id st'
  end.

(** [Product.findById(id)]. *)
Definition findById (st : store) (id : string) : result (option t) :=
  let* id := castObjectId id in
  Ok (lookup id st).

(** The typed [$set] of an update, after the body was cast to the schema:
    [None] is a path the body does not mention. *)
Record update : Type := mkUpdate {
  set_name : option string;
  set_description : option string;
  set_price : option Q;
  set_category : option string;
  set_inStock : option bool
}.

Definition apply_update (now : Z) (u : update) (p : t) : t :=
  {| _id := _id p;
     name := default (name p) (set_name u);
     description := default (description p) (set_description u);
     price := default (price p) (set_price u);
     category := default (category p) (set_category u);
     inStock := default (inStock p) (set_inStock u);
     createdAt := createdAt p;
     updatedAt := now |}.

(** [runValidators]: the [required] validator of a string path refuses
    the empty string. *)
Definition required_ok (o : option string) : bool :=
  match o with
  | Some s => negb (JS.isEmpty s)
  | None => true
  end.

Definition runValidators (u : update) : result unit :=
  if required_ok (set_name u) && required_ok (set_description u)
     && required_ok (set_category u)
  then Ok tt else Err ValidationError.

Fixpoint replace (q : t) (st : store) : store :=
  match st with
  | [] => []
  | p :: st' =>
      if same_id (_id p) (_id q) then q :: st' else p :: replace q st'
  end.

Fixpoint remove (id : string) (st : store) : store :=
  match st with
  | [] => []
  | p :: st' => if same_id (_id p) id then st' else p :: remove id st'
  end.

(** [Product.findByIdAndUpdate(id, u, {new: true, runValidators: true})]:
    the updated document (or [None]) and the store after the call. *)
Definition findByIdAndUpdate (now : Z) (st : store) (id : string) (u : update)
  : result (option t * store) :=
  let* id := castObjectId id in
  let* _ := runValidators u in
  match lookup id st with
  | None => Ok (None, st)
  | Some p =>
      let p' := apply_update now u p in
      Ok (Some p', replace p' st)
  end.

(** [Product.findByIdAndDelete(id)]. *)
Definition findByIdAndDelete (st : store) (id : string)
  : result (option t * store) :=
  let* id := castObjectId id in
  match lookup id st with
  | None => Ok (None, st)
  | Some p => Ok (Some p, remove id st)
  end.

End Product.

(** ** Requests and responses *)

(** A value of a JSON request body.  The content of arrays and objects is
    left out: no route reads it. *)
Inductive json : Type :=
| JNull
| JBool (b : bool)
| JNumber (q : Q)
| JString (s : string)
| JArray
| JObject.

(** The five fields that the routes read from [req.body]; [None] is
    [undefined].  A body with further keys is outside this model. *)
Record body : Type := mkBody {
  b_name : option json;
  b_description : option json;
  b_price : option json;
  b_category : option json;
  b_inStock : option json
}.

Record headers : Type := mkHeaders {
  x_api_key : option string;
  authorization : option string
}.

(** One entry of [categories] in the statistics: the output of the
    [$project] stage. *)
Record category_stat : Type := mkCategoryStat {
  cs_id : string;
  cs_category : string;
  count : nat;
  averagePrice : Q;
  totalValue : Q;
  minPrice : Q;
  maxPrice : Q;
  inStockCount : nat;
  outOfStockCount : nat;
  inStockPercentage : Q
}.

(** [summary.inStockPercentage]: the text of [toFixed(2)], or the number
    [0] of the other branch. *)
Inductive percentage : Type :=
| PctText (s : string)
| PctNumber (z : Z).

Record summary : Type := mkSummary {
  totalProducts : nat;
  inStock : nat;
  outOfStock : nat;
  summary_inStockPercentage : percentage
}.

Record price_statistics : Type := mkPriceStatistics {
  ps_averagePrice : JS.number;
  ps_minPrice : Q;
  ps_maxPrice : Q;
  ps_totalInventoryValue : JS.number
}.

(** The statistics document; [priceStatistics = None] is the empty
    object. *)
Record stats : Type := mkStats {
  stats_summary : summary;
  priceStatistics : option price_statistics;
  categories : list category_stat;
  lastUpdated : Z
}.

(** The [search] member of a search answer. *)
Record search_info : Type := mkSearchInfo {
  query : string;
  totalResults : nat;
  currentPage : JS.number;
  totalPages : JS.number;
  hasNext : bool;
  hasPrev : bool
}.

Inductive payload : Type :=
| Message (message : string)
| MessageWithError (message : string) (e : error)
| MessageWithExample (message : string) (example : string)
| ValidationFailed (message : string) (errors : list string)
| Document (p : Product.t)
| MessageWithProduct (message : string) (p : Product.t)
| SearchResults (search : search_info) (results : nat)
    (products : list Product.t)
| Statistics (s : stats).

Record response : Type := mkResponse {
  status : Z;
  json_body : payload
}.

Definition isClientError (r : response) : bool :=
  (400 <=? status r) && (status r <? 500).

(** ** Middleware *)

Module Middleware.

Definition truthy_string (o : option string) : bool :=
  match o with
  | Some s => negb (JS.isEmpty s)
  | None => false
  end.

(** [a || b] and [a === b] on optional strings. *)
Definition or_else (a b : option string) : option string :=
  if truthy_string a then a else b.

Definition strict_eq (a b : option string) : bool :=
  match a, b with
  | Some x, Some y => String.eqb x y
  | None, None => true
  | _, _ => false
  end.

(** middleware/auth.js.  [env_API_KEY] is [process.env.API_KEY]; the result
    is the response sent, or [None] when [next()] is called. *)
Definition authenticate (env_API_KEY : option string) (h : headers)
  : option response :=
  let apiKey := or_else (x_api_key h) (authorization h) in
  if negb (truthy_string apiKey) then
    Some (mkResponse 401 (Message "Access denied. No API key provided."))
  else
    let validApiKey := or_else env_API_KEY (Some "default-secret-key-123") in
    if negb (strict_eq apiKey validApiKey) then
      Some (mkResponse 403 (Message "Invalid API key."))
    else None.

(** [!v] for an optional JSON value. *)
Definition falsy (v : option json) : bool :=
  match v with
  | None | Some JNull | Some (JBool false) => true
  | Some (JNumber q) => Qeq_bool q 0
  | Some (JString s) => JS.isEmpty s
  | Some (JBool true) | Some JArray | Some JObject => false
  end.

(** [typeof v !== 'string' || v.trim().length === 0]. *)
Definition not_nonblank_string (v : option json) : bool :=
  match v with
  | Some (JString s) => JS.isEmpty (JS.trim s)
  | _ => true
  end.

Definition missing_text (v : option json) : bool :=
  falsy v || not_nonblank_string v.

Definition price_errors (v : option json) : list string :=
  match v with
  | None | Some JNull => ["Price is required"]
  | Some (JNumber q) =>
      if negb (Qle_bool 0 q) then ["Price must be a positive number"] else []
  | Some _ => ["Price must be a positive number"]
  end.

Definition inStock_errors (v : option json) : list string :=
  match v with
  | None | Some (JBool _) => []
  | Some _ => ["inStock must be a boolean value"]
  end.

Definition validation_errors (b : body) : list string :=
  (if missing_text (b_name b)
   then ["Name is required and must be a non-empty string"] else [])
  ++ (if missing_text (b_description b)
      then ["Description is required and must be a non-empty string"] else [])
  ++ price_errors (b_price b)
  ++ (if missing_text (b_category b)
      then ["Category is required and must be a non-empty string"] else [])
  ++ inStock_errors (b_inStock b).

(** [if (v) req.body.field = v.trim()]: only reached with a string. *)
Definition trim_field (v : option json) : option json :=
  match v with
  | Some (JString s) => if JS.isEmpty s then v else Some (JString (JS.trim s))
  | _ => v
  end.

(** middleware/validation.js: the response sent, or the body as it is
    when [next()] is called. *)
Definition validateProduct (b : body) : response + body :=
  match validation_errors b with
  | [] =>
      inr {| b_name := trim_field (b_name b);
             b_description := trim_field (b_description b);
             b_price := b_price b;
             b_category := trim_field (b_category b);
             b_inStock := b_inStock b |}
  | errors => inl (mkResponse 400 (ValidationFailed "Validation failed" errors))
  end.

(** middleware/errorHandler.js, the handler installed after the routes.
    The [error] member of its answers (the key of a duplicate, the message
    text outside production) is left out. *)
Definition errorHandler (err : error) : response :=
  match err with
  | ValidationError => mkResponse 400 (Message "Validation Error")
  | DuplicateKey => mkResponse 400 (Message "Duplicate field value entered")
  | CastError => mkResponse 400 (Message "Invalid ID format")
  | _ => mkResponse 500 (Message "Something went wrong!")
  end.

End Middleware.

(** ** The routes on one product (routes/productRoutes.js) *)

Module Routes.

Import Middleware.

(** A request on [/:id]: headers, the identity of the path and the body. *)
Record request : Type := mkRequest {
  req_headers : headers;
  req_id : string;
  req_body : body
}.

(** The store casts the body of an update to the schema.  Behind
    [validateProduct] the texts are strings, the price a number and
    [inStock] a boolean or absent; any other shape is refused here. *)
Definition cast_text (v : option json) : result (option string) :=
  match v with
  | None => Ok None
  | Some (JString s) => Ok (Some s)
  | Some _ => Err CastError
  end.

Definition cast_number (v : option json) : result (option Q) :=
  match v with
  | None => Ok None
  | Some (JNumber q) => Ok (Some q)
  | Some _ => Err CastError
  end.

Definition cast_boolean (v : option json) : result (option bool) :=
  match v with
  | None => Ok None
  | Some (JBool b) => Ok (Some b)
  | Some _ => Err CastError
  end.

Definition castUpdate (b : body) : result Product.update :=
  let* n := cast_text (b_name b) in
  let* d := cast_text (b_description b) in
  let* p := cast_number (b_price b) in
  let* c := cast_text (b_category b) in
  let* s := cast_boolean (b_inStock b) in
  Ok (Product.mkUpdate n d p c s).

(** [router.get("/:id")]. *)
Definition get_by_id (st : Product.store) (id : string) : response :=
  match Product.findById st id with
  | Ok None => mkResponse 404 (Message "Product not found")
  | Ok (Some product) => mkResponse 200 (Document product)
  | Err _ => mkResponse 404 (Message "Product Not Found")
  end.

(** The handler of [router.put("/:id")], behind its two middlewares. *)
Definition put_handler (now : Z) (st : Product.store) (id : string) (b : body)
  : response * Product.store :=
  match (let* u := castUpdate b in Product.findByIdAndUpdate now st id u) with
  | Ok (None, st') => (mkResponse 404 (Message "Product not found"), st')
  | Ok (Some productToUpdate, st') =>
      (mkResponse 200
         (MessageWithProduct "Product updated successfully" productToUpdate),
       st')
  | Err _ => (mkResponse 500 (Message "Internal server error"), st)
  end.

(** [router.put("/:id", authenticate, validateProduct, ...)]. *)
Definition put (env_API_KEY : option string) (now : Z) (st : Product.store)
  (req : request) : response * Product.store :=
  match authenticate env_API_KEY (req_headers req) with
  | Some r => (r, st)
  | None =>
      match validateProduct (req_body req) with
      | inl r => (r, st)
      | inr b => put_handler now st (req_id req) b
      end
  end.

(** [router.delete("/:id", authenticate, ...)]. *)
Definition delete_handler (st : Product.store) (id : string)
  : response * Product.store :=
  match Product.findByIdAndDelete st id with
  | Ok (None, st') => (mkResponse 404 (Message "Product not found"), st')
  | Ok (Some deletedProduct, st') =>
      (mkResponse 200
         (MessageWithProduct "Product deleted successfully" deletedProduct),
       st')
  | Err _ => (mkResponse 500 (Message "Internal server error"), st)
  end.

Definition delete (env_API_KEY : option string) (st : Product.store)
  (req : request) : response * Product.store :=
  match authenticate env_API_KEY (req_headers req) with
  | Some r => (r, st)
  | None => delete_handler st (req_id req)
  end.

End Routes.

(** ** Queries on the store: filters, casting and the page window *)

Module Query.

(** A [RegExp] object or a [$regex]/[$options] pair, once compiled. *)
Record regexp : Type := mkRegExp {
  pattern : RegExp.pattern;
  ignoreCase : bool
}.

Inductive text_field : Type := Name | Description | Category.

(** One key of a filter object. *)
Inductive condition : Type :=
| CRegex (f : text_field) (r : regexp)          (* {f: {$regex: r}} *)
| CInStock (b : bool)                           (* {inStock: b} *)
| CPrice (gte lte : option JS.number)           (* {price: {$gte, $lte}} *)
| COr (alts : list (text_field * regexp)).      (* {$or: [{f: {$regex}}]} *)

(** A filter object: the conjunction of its keys. *)
Definition filter : Type := list condition.

Definition get_text (f : text_field) (p : Product.t) : string :=
  match f with
  | Name => Product.name p
  | Description => Product.description p
  | Category => Product.category p
  end.

Definition regex_matches (r : regexp) (text : string) : bool :=
  RegExp.test (ignoreCase r) (pattern r) text.

Definition bound_ok (cmp : JS.number -> bool) (b : option JS.number) : bool :=
  match b with
  | Some n => cmp n
  | None => true
  end.

Definition matches (p : Product.t) (c : condition) : bool :=
  match c with
  | CRegex f r => regex_matches r (get_text f p)
  | CInStock b => Bool.eqb (Product.inStock p) b
  | CPrice gte lte =>
      bound_ok (fun n => JS.le n (JS.Num (Product.price p))) gte
      && bound_ok (fun n => JS.le (JS.Num (Product.price p)) n) lte
  | COr alts => existsb (fun '(f, r) => regex_matches r (get_text f p)) alts
  end.

Definition selects (f : filter) (p : Product.t) : bool :=
  forallb (matches p) f.

(** Casting a filter to the schema: a bound on the [Number] path [price]
    that is [NaN] is refused. *)
Definition cast_bound (b : option JS.number) : result unit :=
  match b with
  | Some JS.NaN => Err CastError
  | _ => Ok tt
  end.

Definition cast_condition (c : condition) : result condition :=
  match c with
  | CPrice gte lte =>
      let* _ := cast_bound gte in
      let* _ := cast_bound lte in
      Ok c
  | _ => Ok c
  end.

(** [Product.find(filter)] before ordering and windowing. *)
Definition find (st : Product.store) (f : filter) : result (list Product.t) :=
  let* f' := traverse cast_condition f in
  Ok (List.filter (selects f') st).

(** [Product.countDocuments(filter)]. *)
Definition countDocuments (st : Product.store) (f : filter) : result nat :=
  let* l := find st f in
  Ok (List.length l).

(** A [skip] or [limit] argument as a number of documents, when it is a
    non-negative integer.  What the store does with another number is not
    part of this model. *)
Definition as_count (n : JS.number) : option nat :=
  match n with
  | JS.Num q =>
      if Qle_bool 0 q && (Qden (Qred q) =? 1)%positive
      then Some (Z.to_nat (Qnum (Qred q))) else None
  | _ => None
  end.

(** [.skip(s).limit(n)]: a limit of [0] is no limit. *)
Definition window {A} (s n : JS.number) (l : list A) : option (list A) :=
  s' ← as_count s;
  n' ← as_count n;
  Some (match n' with
        | O => drop s' l
        | _ => take n' (drop s' l)
        end).

(** [.sort({name: 1})]: ascending order of the code units of [name]. *)
Definition name_le (p q : Product.t) : Prop :=
  String.leb (Product.name p) (Product.name q) = true.

#[export] Instance name_le_dec p q : Decision (name_le p q).
Proof. unfold name_le. apply bool_eq_dec. Defined.

Definition sort_by_name (l : list Product.t) : list Product.t :=
  merge_sort name_le l.

End Query.

(** ** The listing route [router.get("/")], up to its query *)

Module Listing.

(** [category && category.trim() !== '']: the filter on [category]. *)
Definition category_source (cleanCategory : string) : string :=
  String.append "^" (String.append cleanCategory "$").

Definition category_condition (category : option string)
  : option (option Query.condition) :=
  match category with
  | None => Some None
  | Some c =>
      if JS.isEmpty c || JS.isEmpty (JS.trim c) then Some None
      else
        p ← RegExp.compile (category_source (JS.trim c));
        Some (Some (Query.CRegex Query.Category (Query.mkRegExp p true)))
  end.

(** [inStock !== undefined]: [filter.inStock = inStock === 'true']. *)
Definition inStock_condition (inStock : option string)
  : option Query.condition :=
  match inStock with
  | None => None
  | Some s => Some (Query.CInStock (String.eqb s "true"))
  end.

(** [if (minPrice || maxPrice)]: the filter on [price]. *)
Definition price_condition (minPrice maxPrice : option string)
  : option Query.condition :=
  if Middleware.truthy_string minPrice || Middleware.truthy_string maxPrice
  then
    Some (Query.CPrice
            (if Middleware.truthy_string minPrice
             then JS.parseFloat <$> minPrice else None)
            (if Middleware.truthy_string maxPrice
             then JS.parseFloat <$> maxPrice else None))
  else None.

(** The filter object of a listing; [None] when the category gives a
    pattern outside the embedded fragment. *)
Definition filter (category inStock minPrice maxPrice : option string)
  : option Query.filter :=
  c ← category_condition category;
  Some (option_list c
        ++ option_list (inStock_condition inStock)
        ++ option_list (price_condition minPrice maxPrice))%list.

Definition pageNum (page : option string) : JS.number :=
  JS.Math_max (JS.of_Z 1) (JS.parseInt (JS.with_default 1 page)).

Definition limitNum (limit : option string) : JS.number :=
  JS.Math_max (JS.of_Z 1)
    (JS.Math_min (JS.parseInt (JS.with_default 10 limit)) (JS.of_Z 100)).

Definition skip (page limit : option string) : JS.number :=
  JS.mul (JS.sub (pageNum page) (JS.of_Z 1)) (limitNum limit).

(** The sort options: the field and [1] or [-1]; [sort] defaults to
    ["name"] and the empty text gives no option. *)
Definition sortOptions (sort : option string) : option (string * Z) :=
  let sort := default "name" sort in
  if JS.isEmpty sort then None
  else if JS.startsWith sort "-" then Some (JS.substring1 sort, -1)
  else Some (sort, 1).

End Listing.

(** ** The search route [router.get("/search")] *)

Module Search.

Definition pageNum (page : option string) : JS.number :=
  JS.Math_max (JS.of_Z 1) (JS.parseInt (JS.with_default 1 page)).

Definition limitNum (limit : option string) : JS.number :=
  JS.Math_max (JS.of_Z 1) (JS.parseInt (JS.with_default 10 limit)).

Definition skip (page limit : option string) : JS.number :=
  JS.mul (JS.sub (pageNum page) (JS.of_Z 1)) (limitNum limit).

(** The [$or] of the three case-insensitive matches of the term; [None]
    when the term is a pattern outside the embedded fragment. *)
Definition searchFilter (searchTerm : string) : option Query.filter :=
  p ← RegExp.compile searchTerm;
  let r := Query.mkRegExp p true in
  Some [Query.COr [(Query.Name, r); (Query.Description, r);
                   (Query.Category, r)]].

Definition blank (q : option string) : bool :=
  match q with
  | None => true
  | Some s => JS.isEmpty s || JS.isEmpty (JS.trim s)
  end.

(** The handler.  [None] stands for a request that this model does not
    cover: a term outside the pattern fragment, or a window that is not a
    pair of non-negative integers. *)
Definition handler (st : Product.store) (q page limit : option string)
  : option response :=
  if blank q then
    Some (mkResponse 400
            (MessageWithExample "Search query 'q' is required"
               "/api/products/search?q=phone&page=1&limit=5"))
  else
    let searchTerm := JS.trim (default "" q) in
    searchFilter ← searchFilter searchTerm;
    match (let* found := Query.find st searchFilter in
           let* totalResults := Query.countDocuments st searchFilter in
           Ok (found, totalResults)) with
    | Err e => Some (mkResponse 500 (MessageWithError "Search failed" e))
    | Ok (found, totalResults) =>
        products ← Query.window (skip page limit) (limitNum limit)
                     (Query.sort_by_name found);
        let totalPages :=
          JS.Math_ceil (JS.div (JS.of_Z (Z.of_nat totalResults))
                          (limitNum limit)) in
        Some (mkResponse 200
                (SearchResults
                   {| query := searchTerm;
                      totalResults := totalResults;
                      currentPage := pageNum page;
                      totalPages := totalPages;
                      hasNext := JS.lt (pageNum page) totalPages;
                      hasPrev := JS.lt (JS.of_Z 1) (pageNum page) |}
                   (List.length products) products))
    end.

End Search.

(** ** The statistics route [router.get("/stats")] *)

Module Stats.

Local Open Scope Q_scope.

(** The accumulators of one [$group] bucket. *)
Record group : Type := mkGroup {
  g_id : string;
  g_count : nat;
  g_sum : Q;
  g_min : Q;
  g_max : Q;
  g_inStock : nat;
  g_outOfStock : nat
}.

Definition Qmin' (a b : Q) : Q := if Qle_bool a b then a else b.
Definition Qmax' (a b : Q) : Q := if Qle_bool a b then b else a.

(** [$cond: [{$eq: ["$inStock", v]}, 1, 0]]. *)
Definition cond_eq (v : bool) (p : Product.t) : nat :=
  if Bool.eqb (Product.inStock p) v then 1%nat else 0%nat.

Definition group_new (p : Product.t) : group :=
  {| g_id := Product.category p;
     g_count := 1%nat;
     g_sum := Product.price p;
     g_min := Product.price p;
     g_max := Product.price p;
     g_inStock := cond_eq true p;
     g_outOfStock := cond_eq false p |}.

Definition group_add (p : Product.t) (g : group) : group :=
  {| g_id := g_id g;
     g_count := (g_count g + 1)%nat;
     g_sum := g_sum g + Product.price p;
     g_min := Qmin' (g_min g) (Product.price p);
     g_max := Qmax' (g_max g) (Product.price p);
     g_inStock := (g_inStock g + cond_eq true p)%nat;
     g_outOfStock := (g_outOfStock g + cond_eq false p)%nat |}.

Fixpoint group_insert (p : Product.t) (gs : list group) : list group :=
  match gs with
  | [] => [group_new p]
  | g :: gs' =>
      if String.eqb (g_id g) (Product.category p)
      then group_add p g :: gs'
      else g :: group_insert p gs'
  end.

(** [$group: {_id: "$category", ...}]: one bucket per category value. *)
Definition group_by_category (st : Product.store) : list group :=
  fold_left (fun gs p => group_insert p gs) st [].

(** [$sort: {count: -1}]. *)
Definition count_ge (g h : group) : Prop := (g_count h <= g_count g)%nat.

#[export] Instance count_ge_dec g h : Decision (count_ge g h).
Proof. unfold count_ge. apply _. Defined.

Definition sort_by_count (gs : list group) : list group :=
  merge_sort count_ge gs.

(** [$divide]: a zero divisor is an error of the pipeline. *)
Definition divide (a b : Q) : result Q :=
  if Qeq_bool b 0 then Err DivideByZero else Ok (a / b).

(** [$round: [x, 2]]: to the nearest hundredth, a half going to the even
    neighbour. *)
Definition round_half_even (x : Q) : Z :=
  let f := Qfloor x in
  match Qcompare (x - inject_Z f) (1 # 2) with
  | Lt => f
  | Gt => (f + 1)%Z
  | Eq => if Z.even f then f else (f + 1)%Z
  end.

Definition round2 (x : Q) : Q :=
  Qred (inject_Z (round_half_even (x * 100)) / 100).

Definition Q_of_nat (n : nat) : Q := inject_Z (Z.of_nat n).

(** [$avg: "$price"] of a bucket. *)
Definition avg (g : group) : Q := g_sum g / Q_of_nat (g_count g).

(** The [$project] stage on one bucket. *)
Definition project (g : group) : result category_stat :=
  let* ratio := divide (Q_of_nat (g_inStock g)) (Q_of_nat (g_count g)) in
  Ok {| cs_id := g_id g;
        cs_category := g_id g;
        count := g_count g;
        averagePrice := round2 (avg g);
        totalValue := round2 (g_sum g);
        minPrice := g_min g;
        maxPrice := g_max g;
        inStockCount := g_inStock g;
        outOfStockCount := g_outOfStock g;
        inStockPercentage := round2 (ratio * 100) |}.

(** The first pipeline: [$group], [$sort], [$project]. *)
Definition categoryStats (st : Product.store) : result (list category_stat) :=
  traverse project (sort_by_count (group_by_category st)).

(** The second pipeline: all documents in one bucket ([_id: null]); no
    document, no bucket. *)
Record overall : Type := mkOverall {
  o_averagePrice : Q;
  o_minPrice : Q;
  o_maxPrice : Q;
  o_totalInventoryValue : Q
}.

Definition overall_add (o : group) (p : Product.t) : group := group_add p o.

Definition priceStats (st : Product.store) : list overall :=
  match st with
  | [] => []
  | p :: st' =>
      let g := fold_left overall_add st' (group_new p) in
      [ {| o_averagePrice := avg g;
           o_minPrice := g_min g;
           o_maxPrice := g_max g;
           o_totalInventoryValue := g_sum g |} ]
  end.

Definition round_cents (x : Q) : JS.number :=
  JS.div (JS.Math_round (JS.mul (JS.Num x) (JS.of_Z 100))) (JS.of_Z 100).

(** The body of the [try] block; [now] is the clock read for
    [lastUpdated]. *)
Definition statistics (now : Z) (st : Product.store) : result stats :=
  let* totalProducts := Query.countDocuments st [] in
  let* inStockCount := Query.countDocuments st [Query.CInStock true] in
  let* outOfStockCount := Query.countDocuments st [Query.CInStock false] in
  let* categoryStats := categoryStats st in
  let priceStats := priceStats st in
  Ok {| stats_summary :=
          {| totalProducts := totalProducts;
             inStock := inStockCount;
             outOfStock := outOfStockCount;
             summary_inStockPercentage :=
               if (0 <? totalProducts)%nat
               then PctText
                      (JS.toFixed2
                         (JS.mul
                            (JS.div (JS.of_Z (Z.of_nat inStockCount))
                               (JS.of_Z (Z.of_nat totalProducts)))
                            (JS.of_Z 100)))
               else PctNumber 0%Z |};
        priceStatistics :=
          match priceStats with
          | o :: _ =>
              Some {| ps_averagePrice := round_cents (o_averagePrice o);
                      ps_minPrice := o_minPrice o;
                      ps_maxPrice := o_maxPrice o;
                      ps_totalInventoryValue :=
                        round_cents (o_totalInventoryValue o) |}
          | [] => None
          end;
        categories := categoryStats;
        lastUpdated := now |}.

(** The handler: the answer of the [try] block or of its [catch]. *)
Definition handler (now : Z) (st : Product.store) : response :=
  match statistics now st with
  | Ok s => mkResponse 200 (Statistics s)
  | Err e => mkResponse 500 (MessageWithError "Failed to get statistics" e)
  end.

End Stats.

(** ** The creation route [router.post("/")] *)

Module Creation.

Import Middleware.

(** [inStock !== undefined ? inStock : true]. *)
Definition inStock_or_true (v : option json) : option json :=
  match v with
  | None => Some (JBool true)
  | Some _ => v
  end.

(** [new Product(fields).save()]: the [required] validators of the schema
    run first; the identity [fresh] that the model gave the document must
    be new to the store.  The saved document and the store after it. *)
Definition save (now : Z) (fresh : string) (st : Product.store)
  (u : Product.update) : result (Product.t * Product.store) :=
  match Product.set_name u, Product.set_description u,
        Product.set_price u, Product.set_category u with
  | Some n, Some d, Some q, Some c =>
      if JS.isEmpty n || JS.isEmpty d || JS.isEmpty c
      then Err ValidationError
      else
        match Product.lookup fresh st with
        | Some _ => Err DuplicateKey
        | None =>
            let p := {| Product._id := fresh;
                        Product.name := n;
                        Product.description := d;
                        Product.price := q;
                        Product.category := c;
                        Product.inStock := default true (Product.set_inStock u);
                        Product.createdAt := now;
                        Product.updatedAt := now |} in
            Ok (p, (st ++ [p])%list)
        end
  | _, _, _, _ => Err ValidationError
  end.

(** The handler of [router.post("/")], behind its two middlewares. *)
Definition post_handler (now : Z) (fresh : string) (st : Product.store)
  (b : body) : response * Product.store :=
  let fields := {| b_name := b_name b;
                   b_description := b_description b;
                   b_price := b_price b;
                   b_category := b_category b;
                   b_inStock := inStock_or_true (b_inStock b) |} in
  match (let* u := Routes.castUpdate fields in save now fresh st u) with
  | Ok (savedProduct, st') =>
      (mkResponse 201
         (MessageWithProduct "Product created successfully" savedProduct),
       st')
  | Err _ =>
      (mkResponse 500 (Message "Creating New Product was unsuccessful!"), st)
  end.

(** [router.post("/", authenticate, validateProduct, ...)]. *)
Definition post (env_API_KEY : option string) (now : Z) (fresh : string)
  (st : Product.store) (h : headers) (b : body)
  : response * Product.store :=
  match authenticate env_API_KEY h with
  | Some r => (r, st)
  | None =>
      match validateProduct b with
      | inl r => (r, st)
      | inr b' => post_handler now fresh st b'
      end
  end.

End Creation.

(** ** The [pagination] member of a listing answer *)

Module ListingPage.

Record t : Type := mk {
  currentPage : JS.number;
  totalPages : JS.number;
  totalProducts : nat;
  productsPerPage : JS.number;
  hasNext : bool;
  hasPrev : bool;
  nextPage : option JS.number;
  prevPage : option JS.number
}.

(** The block built from the page, the limit and the count of the documents
    that match the filter; [None] is [null]. *)
Definition pagination (page limit : option string) (totalProducts : nat) : t :=
  let pageNum := Listing.pageNum page in
  let limitNum := Listing.limitNum limit in
  let totalPages :=
    JS.Math_ceil (JS.div (JS.of_Z (Z.of_nat totalProducts)) limitNum) in
  {| currentPage := pageNum;
     totalPages := totalPages;
     totalProducts := totalProducts;
     productsPerPage := limitNum;
     hasNext := JS.lt pageNum totalPages;
     hasPrev := JS.lt (JS.of_Z 1) pageNum;
     nextPage := if JS.lt pageNum totalPages
                 then Some (JS.add pageNum (JS.of_Z 1)) else None;
     prevPage := if JS.lt (JS.of_Z 1) pageNum
                 then Some (JS.sub pageNum (JS.of_Z 1)) else None |}.

End ListingPage.

(** ** Sample data *)

Module Sample.

Local Open Scope Q_scope.

Fixpoint zeros (k : nat) : string :=
  match k with
  | O => EmptyString
  | S k' => String "0" (zeros k')
  end.

(** The [n]-th sample identity: [n] in decimal, padded to 24 digits. *)
Definition id (n : nat) : string :=
  let d := JS.Z_toString (Z.of_nat n) in
  String.append (zeros (24 - String.length d)) d.

Definition product (n : nat) (name category : string) (price : Q)
  (inStock : bool) : Product.t :=
  {| Product._id := id n;
     Product.name := name;
     Product.description := String.append "A sample " name;
     Product.price := price;
     Product.category := category;
     Product.inStock := inStock;
     Product.createdAt := 0;
     Product.updatedAt := 0 |}.

Definition with_id (i : string) (p : Product.t) : Product.t :=
  {| Product._id := i;
     Product.name := Product.name p;
     Product.description := Product.description p;
     Product.price := Product.price p;
     Product.category := Product.category p;
     Product.inStock := Product.inStock p;
     Product.createdAt := Product.createdAt p;
     Product.updatedAt := Product.updatedAt p |}.

Definition phone_id : string := "507f1f77bcf86cd799439011".

Definition phone : Product.t :=
  with_id phone_id (product 1 "iPhone 15 Pro" "electronics" 999 true).
Definition cable : Product.t :=
  product 2 "USB cable" "electronics-accessories" (19 # 2) true.
Definition kettle : Product.t := product 3 "Kettle" "kitchen" 35 false.

Definition shop : Product.store := [phone; cable; kettle].

(** [k] products that all carry the word [item] in their name. *)
Definition items (k : nat) : Product.store :=
  map (fun n => product n "item" "misc" 1 true) (seq 0 k).

Definition api_key : headers :=
  {| x_api_key := Some "default-secret-key-123"; authorization := None |}.

(** A body with every field but [inStock], and the body of the update
    example of the README: a price and a stock flag only. *)
Definition full_body : body :=
  {| b_name := Some (JString " Kettle 2 ");
     b_description := Some (JString "A better kettle");
     b_price := Some (JNumber 40);
     b_category := Some (JString "kitchen");
     b_inStock := None |}.

Definition partial_body : body :=
  {| b_name := None;
     b_description := None;
     b_price := Some (JNumber 1799);
     b_category := None;
     b_inStock := Some (JBool false) |}.

End Sample.

(** ** Expected values used in the statements *)

(** The [inStock] of a product after an update with body [b]. *)
Definition inStock_after (b : body) (old : bool) : bool :=
  match b_inStock b with
  | Some (JBool s) => s
  | _ => old
  end.

(** The bound that a raw [minPrice] or [maxPrice] contributes: none when
    the parameter is absent or empty. *)
Definition bound_of (raw : option string) : option JS.number :=
  match raw with
  | None => None
  | Some s => if JS.isEmpty s then None else Some (JS.parseFloat s)
  end.

(** A bucket of the grouping is well formed when it counts at least one
    document and no more documents in stock than documents. *)
Definition group_ok (g : Stats.group) : Prop :=
  (1 <= Stats.g_count g)%nat ∧ (Stats.g_inStock g <= Stats.g_count g)%nat.

(** Descending order of the [count] of two entries. *)
Definition count_desc (a b : category_stat) : Prop :=
  (count b <= count a)%nat.

(** A text without characters of the pattern syntax, its tokens and terms
    when it is read as a pattern, and a text with its letters folded to one
    case. *)
Definition plain (s : string) : bool :=
  Product.all_chars (fun c => negb (RegExp.isSyntaxCharacter c)) s.

Fixpoint literal_tokens (s : string) : list RegExp.token :=
  match s with
  | String c s' => RegExp.TAtom (RegExp.Char c) :: literal_tokens s'
  | EmptyString => []
  end.

Fixpoint literal_terms (s : string) : RegExp.pattern :=
  match s with
  | String c s' => RegExp.Atom (RegExp.Char c) RegExp.One :: literal_terms s'
  | EmptyString => []
  end.

Fixpoint fold_case (s : string) : string :=
  match s with
  | String c s' => String (RegExp.canonicalize c) (fold_case s')
  | EmptyString => EmptyString
  end.

(** The key a request presents and the key the service is configured
    with: an empty header or variable counts as absent, [x-api-key] goes
    before [authorization]. *)
Definition presented_key (h : headers) : option string :=
  match x_api_key h with
  | Some (String c k) => Some (String c k)
  | _ =>
      match authorization h with
      | Some (String c k) => Some (String c k)
      | _ => None
      end
  end.

Definition configured_key (env_API_KEY : option string) : string :=
  match env_API_KEY with
  | Some (String c k) => String c k
  | _ => "default-secret-key-123"
  end.

(** A text field that [validateProduct] lets through, and a whole body
    that it lets through. *)
Definition text_ok (v : option json) : Prop :=
  ∃ s, v = Some (JString s) ∧ JS.trim s ≠ "".

Definition body_ok (b : body) : Prop :=
  text_ok (b_name b) ∧ text_ok (b_description b)
  ∧ (∃ q, b_price b = Some (JNumber q) ∧ (0 <= q)%Q)
  ∧ text_ok (b_category b)
  ∧ (b_inStock b = None ∨ ∃ s, b_inStock b = Some (JBool s)).

Definition trimmed (b : body) : body :=
  {| b_name := Middleware.trim_field (b_name b);
     b_description := Middleware.trim_field (b_description b);
     b_price := b_price b;
     b_category := Middleware.trim_field (b_category b);
     b_inStock := b_inStock b |}.

(** The identities of a store. *)
Definition ids (st : Product.store) : list string := map Product._id st.

(** The same identities as ObjectIds: each in its canonical spelling. *)
Definition identities (st : Product.store) : list string :=
  map Product.canonical (ids st).

(** A stored product as the validator leaves it: texts trimmed and not
    empty, price not negative. *)
Definition well_formed (p : Product.t) : Prop :=
  JS.trim (Product.name p) = Product.name p ∧ Product.name p ≠ ""
  ∧ JS.trim (Product.description p) = Product.description p
  ∧ Product.description p ≠ ""
  ∧ JS.trim (Product.category p) = Product.category p
  ∧ Product.category p ≠ ""
  ∧ (0 <= Product.price p)%Q.

(** A text that is empty or starts with a character that is no white
    space. *)
Definition starts_clean (s : string) : Prop :=
  match s with
  | String c _ => JS.isWhiteSpace c = false
  | EmptyString => True
  end.

(** The last character of a text, if any. *)
Fixpoint last_char (s : string) : option ascii :=
  match s with
  | EmptyString => None
  | String c EmptyString => Some c
  | String _ s' => last_char s'
  end.

(** The product that an accepted body [b] makes of the stored product
    [p], and the product that it creates under the identity [fresh]. *)
Definition text_of (v : option json) (old : string) : string :=
  match v with
  | Some (JString s) => JS.trim s
  | _ => old
  end.

Definition number_of (v : option json) (old : Q) : Q :=
  match v with
  | Some (JNumber q) => q
  | _ => old
  end.

Definition updated (now : Z) (b : body) (p : Product.t) : Product.t :=
  {| Product._id := Product._id p;
     Product.name := text_of (b_name b) (Product.name p);
     Product.description := text_of (b_description b) (Product.description p);
     Product.price := number_of (b_price b) (Product.price p);
     Product.category := text_of (b_category b) (Product.category p);
     Product.inStock := inStock_after b (Product.inStock p);
     Product.createdAt := Product.createdAt p;
     Product.updatedAt := now |}.

Definition created (now : Z) (fresh : string) (b : body) : Product.t :=
  {| Product._id := fresh;
     Product.name := text_of (b_name b) "";
     Product.description := text_of (b_description b) "";
     Product.price := number_of (b_price b) 0;
     Product.category := text_of (b_category b) "";
     Product.inStock := inStock_after b true;
     Product.createdAt := now;
     Product.updatedAt := now |}.

(** What the listing parameters ask of a product. *)
Definition category_asks (category : option string) (p : Product.t) : Prop :=
  match category with
  | None => True
  | Some c =>
      JS.trim c = ""
      ∨ fold_case (Product.category p) = fold_case (JS.trim c)
  end.

Definition inStock_asks (inStock : option string) (p : Product.t) : Prop :=
  match inStock with
  | None => True
  | Some s => Product.inStock p = true ↔ s = "true"
  end.

Definition price_asks (minPrice maxPrice : option string) (p : Product.t)
  : Prop :=
  (∀ n, bound_of minPrice = Some n →
        JS.le n (JS.Num (Product.price p)) = true)
  ∧ (∀ n, bound_of maxPrice = Some n →
          JS.le (JS.Num (Product.price p)) n = true).

(** The text [t] occurs in the text [s], letter case apart. *)
Definition occurs (t s : string) : Prop :=
  ∃ pre post,
    fold_case s = String.append pre (String.append (fold_case t) post).

(** The number of products of category [c] that satisfy [f], and what a
    bucket says of the prices of a store: its least and greatest price are
    prices of products of its category, and bound them all. *)
Definition tally (f : Product.t → bool) (c : string) (st : Product.store)
  : nat :=
  List.length
    (List.filter (fun p => String.eqb (Product.category p) c && f p) st).

Definition price_range (c : string) (lo hi : Q) (st : Product.store) : Prop :=
  (∃ x, In x st ∧ Product.category x = c ∧ Product.price x = lo)
  ∧ (∃ y, In y st ∧ Product.category y = c ∧ Product.price y = hi)
  ∧ ∀ p, In p st → Product.category p = c →
         (lo <= Product.price p)%Q ∧ (Product.price p <= hi)%Q.

(** The same for all products, whatever their category. *)
Definition overall_range (lo hi : Q) (st : Product.store) : Prop :=
  (∃ x, In x st ∧ Product.price x = lo)
  ∧ (∃ y, In y st ∧ Product.price y = hi)
  ∧ ∀ p, In p st → (lo <= Product.price p)%Q ∧ (Product.price p <= hi)%Q.

(** The sum of a counter over the buckets of category [c]. *)
Definition group_total (f : Stats.group → nat) (c : string)
  (gs : list Stats.group) : nat :=
  sum_list_with (fun g => if String.eqb (Stats.g_id g) c then f g else 0%nat)
    gs.

(** A bucket whose two stock counters add up to its count. *)
Definition balanced (g : Stats.group) : Prop :=
  (Stats.g_inStock g + Stats.g_outOfStock g = Stats.g_count g)%nat.

(** * Properties *)

(** ** Numbers and pagination *)

Section Pagination.

Lemma Qle_bool_inject_Z (a b : Z) :
  Qle_bool (inject_Z a) (inject_Z b) = (a <=? b).
Proof. unfold Qle_bool; cbn. by rewrite !Z.mul_1_r. Qed.

Lemma lt_of_Z (a b : Z) : JS.lt (JS.of_Z a) (JS.of_Z b) = (a <? b).
Proof.
  unfold JS.lt, JS.of_Z. rewrite Qle_bool_inject_Z.
  destruct (Z.leb_spec b a), (Z.ltb_spec a b); simpl; try reflexivity; lia.
Qed.

Lemma Math_max_of_Z (a b : Z) :
  JS.Math_max (JS.of_Z a) (JS.of_Z b) = JS.of_Z (Z.max a b).
Proof.
  change (JS.Math_max (JS.of_Z a) (JS.of_Z b))
    with (if JS.lt (JS.of_Z a) (JS.of_Z b) then JS.of_Z b else JS.of_Z a).
  rewrite lt_of_Z. destruct (Z.ltb_spec a b); f_equal; lia.
Qed.

Lemma Math_min_of_Z (a b : Z) :
  JS.Math_min (JS.of_Z a) (JS.of_Z b) = JS.of_Z (Z.min a b).
Proof.
  change (JS.Math_min (JS.of_Z a) (JS.of_Z b))
    with (if JS.lt (JS.of_Z b) (JS.of_Z a) then JS.of_Z b else JS.of_Z a).
  rewrite lt_of_Z. destruct (Z.ltb_spec b a); f_equal; lia.
Qed.

Lemma sub_mul_of_Z (p l : Z) :
  JS.mul (JS.sub (JS.of_Z p) (JS.of_Z 1)) (JS.of_Z l)
  = JS.of_Z ((p - 1) * l).
Proof.
  unfold JS.of_Z, JS.sub, JS.neg, JS.add, JS.mul, inject_Z.
  unfold Qmult, Qplus, Qopp; cbn. f_equal. f_equal. lia.
Qed.

(** Rounding an integer to binary64 gives an integer or an infinity. *)
Lemma Qred_inject_Z (z : Z) : Qred (inject_Z z) = inject_Z z.
Proof.
  unfold Qred, inject_Z.
  pose proof (Z.ggcd_gcd z 1) as Hg.
  pose proof (Z.ggcd_correct_divisors z 1) as Hd.
  destruct (Z.ggcd z 1) as [g [a b]]. simpl in *.
  destruct Hd as [Ha Hb]. rewrite Z.gcd_1_r in Hg. subst g.
  rewrite Z.mul_1_l in Ha, Hb. by subst.
Qed.

Lemma Qred_integral (x : Q) (z : Z) :
  (x == inject_Z z)%Q → Qred x = inject_Z z.
Proof. intros H. rewrite (Qred_complete _ _ H). apply Qred_inject_Z. Qed.

Lemma roundTiesToEven_integral (x : Q) (k : Z) :
  (x == inject_Z k)%Q → JS.roundTiesToEven x = k.
Proof.
  intros H. unfold JS.roundTiesToEven.
  assert (Hf : Qfloor x = k) by (rewrite H; apply Qfloor_Z).
  rewrite Hf.
  assert (Hc : ((x - inject_Z k) ?= (1 # 2))%Q = Lt).
  { rewrite H. apply Qlt_alt.
    assert (E : (inject_Z k - inject_Z k == 0)%Q) by ring.
    by rewrite E. }
  by rewrite Hc.
Qed.

(** Scaling an integer by a power of two and back, when no bit is lost. *)
Lemma scale_integral (z t : Z) :
  t <= 0 →
  (JS.scale_up (JS.roundTiesToEven (JS.scale_down (inject_Z z) t)) t
   == inject_Z z)%Q.
Proof.
  intros Ht. unfold JS.scale_up, JS.scale_down.
  assert (Hpos : 0 < 2 ^ (- t)) by (apply Z.pow_pos_nonneg; lia).
  destruct (Z.leb_spec 0 t) as [H0|H0].
  - assert (t = 0) by lia. subst t. change (2 ^ 0) with 1.
    rewrite (roundTiesToEven_integral _ z).
    + by rewrite Z.mul_1_r.
    + change (inject_Z 1) with 1%Q. field.
  - rewrite (roundTiesToEven_integral _ (z * 2 ^ (- t))).
    + rewrite inject_Z_mult. field.
      intros E. unfold Qeq in E. simpl in E. lia.
    + by rewrite inject_Z_mult.
Qed.

Lemma round64_pos_integral (z : Z) :
  JS.round64_pos (inject_Z z) = JS.PosInf
  ∨ ∃ k, JS.round64_pos (inject_Z z) = JS.of_Z k.
Proof.
  unfold JS.round64_pos.
  set (t := Z.max (JS.exponent (inject_Z z) - 52) (-1074)).
  destruct (Qle_bool _ _); [by left|]. right.
  destruct (Z.leb_spec 0 t) as [H0|H0].
  - eexists. unfold JS.scale_up at 1.
    destruct (Z.leb_spec 0 t); [|lia]. unfold JS.of_Z. f_equal.
    apply Qred_inject_Z.
  - exists z. unfold JS.of_Z. f_equal. apply Qred_integral.
    apply scale_integral. lia.
Qed.

Lemma round64_integral (z : Z) :
  JS.round64 (inject_Z z) = JS.PosInf ∨ JS.round64 (inject_Z z) = JS.NegInf
  ∨ ∃ k, JS.round64 (inject_Z z) = JS.of_Z k.
Proof.
  unfold JS.round64. destruct z as [|p|p]; simpl Qnum; cbv iota.
  - right; right. by exists 0.
  - destruct (round64_pos_integral (Z.pos p)) as [E | [k E]]; rewrite E; eauto.
  - change (- inject_Z (Z.neg p))%Q with (inject_Z (Z.pos p)).
    destruct (round64_pos_integral (Z.pos p)) as [E | [k E]]; rewrite E; simpl.
    + by right; left.
    + right; right. by exists (- k).
Qed.

Lemma exponent_integral (z : Z) :
  0 < z → JS.exponent (inject_Z z) <= Z.log2 z.
Proof.
  intros Hz. unfold JS.exponent. simpl. rewrite Z.sub_0_r.
  destruct (Qle_bool _ _); lia.
Qed.

(** An integer below 2^53 is a binary64 number. *)
Lemma round64_pos_exact (z : Z) :
  0 < z < 2 ^ 53 → JS.round64_pos (inject_Z z) = JS.of_Z z.
Proof.
  intros Hz. unfold JS.round64_pos.
  set (t := Z.max (JS.exponent (inject_Z z) - 52) (-1074)).
  assert (Ht : t <= 0).
  { pose proof (exponent_integral z ltac:(lia)).
    assert (Z.log2 z < 53) by (apply Z.log2_lt_pow2; lia). lia. }
  pose proof (scale_integral z t Ht) as Hs.
  set (v := JS.scale_up _ t) in *.
  assert (Hv : Qle_bool (JS.scale_up 1 1024) v = false).
  { apply not_true_is_false. intros H. apply Qle_bool_iff in H.
    rewrite Hs in H. change (JS.scale_up 1 1024) with (inject_Z (2 ^ 1024)) in H.
    rewrite <- Zle_Qle in H.
    assert (2 ^ 53 < 2 ^ 1024) by (apply Z.pow_lt_mono_r; lia). lia. }
  rewrite Hv. unfold JS.of_Z. f_equal. by apply Qred_integral.
Qed.

Lemma round64_exact (z : Z) :
  - 2 ^ 53 < z < 2 ^ 53 → JS.round64 (inject_Z z) = JS.of_Z z.
Proof.
  intros Hz. unfold JS.round64. destruct z as [|p|p]; simpl Qnum; cbv iota.
  - reflexivity.
  - apply round64_pos_exact. lia.
  - change (- inject_Z (Z.neg p))%Q with (inject_Z (Z.pos p)).
    rewrite round64_pos_exact; [reflexivity|lia].
Qed.

(** [parseInt] gives [NaN], an infinity or an integer. *)
Lemma parseInt_string_cases (s : string) :
  JS.parseInt_string s = JS.NaN
  ∨ JS.parseInt_string s = JS.PosInf
  ∨ JS.parseInt_string s = JS.NegInf
  ∨ ∃ n, JS.parseInt_string s = JS.of_Z n.
Proof.
  unfold JS.parseInt_string.
  repeat match goal with
         | |- context [let '(_, _) := ?e in _] => destruct e
         end.
  destruct (JS.radix_digits _ _).1; [by left|]. right.
  apply round64_integral.
Qed.

(** Numeric parameters of the listing: page at least 1, limit clamped. *)
Lemma listing_pageNum_numeric (s : string) (n : Z) :
  JS.parseInt (JS.PStr s) = JS.of_Z n →
  Listing.pageNum (Some s) = JS.of_Z (Z.max 1 n).
Proof.
  intros H. unfold Listing.pageNum, JS.with_default. rewrite H.
  apply Math_max_of_Z.
Qed.

Lemma listing_limitNum_numeric (s : string) (n : Z) :
  JS.parseInt (JS.PStr s) = JS.of_Z n →
  Listing.limitNum (Some s) = JS.of_Z (Z.max 1 (Z.min n 100)).
Proof.
  intros H. unfold Listing.limitNum, JS.with_default. rewrite H.
  by rewrite Math_min_of_Z, Math_max_of_Z.
Qed.

Lemma listing_skip_numeric (sp sl : string) (p l : Z) :
  JS.parseInt (JS.PStr sp) = JS.of_Z p →
  JS.parseInt (JS.PStr sl) = JS.of_Z l →
  Listing.skip (Some sp) (Some sl)
  = JS.of_Z ((Z.max 1 p - 1) * Z.max 1 (Z.min l 100)).
Proof.
  intros Hp Hl. unfold Listing.skip.
  rewrite (listing_pageNum_numeric _ _ Hp), (listing_limitNum_numeric _ _ Hl).
  apply sub_mul_of_Z.
Qed.

(** Whatever the parameters, the skip is the product the route writes. *)
Lemma listing_skip_formula (page limit : option string) :
  Listing.skip page limit
  = JS.mul (JS.sub (Listing.pageNum page) (JS.of_Z 1)) (Listing.limitNum limit).
Proof. reflexivity. Qed.

End Pagination.

(** ** The claims on the normalised page and limit *)

(** C2, as the code has it.  A missing [limit] gives 10, and a [limit] that
    parses to an integer [n] gives [n] clamped into [1, 100]: a value below
    1 gives 1, a value above 100 gives 100. *)
Theorem listing_limit_clamped :
  Listing.limitNum None = JS.of_Z 10
  ∧ ∀ (s : string) (n : Z),
      JS.parseInt (JS.PStr s) = JS.of_Z n →
      Listing.limitNum (Some s) = JS.of_Z (Z.max 1 (Z.min n 100))
      ∧ (n < 1 → Listing.limitNum (Some s) = JS.of_Z 1)
      ∧ (100 < n → Listing.limitNum (Some s) = JS.of_Z 100).
Proof.
  split; [reflexivity|]. intros s n H.
  rewrite (listing_limitNum_numeric s n H).
  repeat split; intros; f_equal; lia.
Qed.

Lemma listing_limit_clamped_witness :
  JS.parseInt (JS.PStr "250") = JS.of_Z 250
  ∧ Listing.limitNum (Some "250") = JS.of_Z 100.
Proof.
  split; [reflexivity|].
  destruct (proj2 listing_limit_clamped "250" 250 eq_refl) as (_ & _ & H).
  apply H. lia.
Defined.

(** C2 as stated fails: a requested limit of 0 is below 1 and becomes 1,
    not the default 10. *)
Lemma listing_limit_below_one_not_default :
  JS.parseInt (JS.PStr "0") = JS.of_Z 0
  ∧ Listing.limitNum (Some "0") = JS.of_Z 1
  ∧ Listing.limitNum (Some "0") ≠ JS.of_Z 10.
Proof. split; [reflexivity|]. split; [reflexivity|discriminate]. Qed.

(** C6 at the failing input: a page that is not a number is normalised to
    [NaN], not to 1, and the skip is [NaN] with it. *)
Theorem listing_page_not_numeric :
  JS.parseInt (JS.PStr "abc") = JS.NaN
  ∧ Listing.pageNum (Some "abc") = JS.NaN
  ∧ Listing.pageNum (Some "abc") ≠ JS.of_Z 1
  ∧ Listing.skip (Some "abc") None = JS.NaN.
Proof.
  split; [reflexivity|]. split; [reflexivity|].
  split; [discriminate|reflexivity].
Qed.

(** ** Updates and identities *)

(** The spelling of an identity: its case is ignored by every store call. *)
Section Identities.

Lemma lower_hex_idemp (c : ascii) :
  Product.lower_hex (Product.lower_hex c) = Product.lower_hex c.
Proof. by destruct c as [[] [] [] [] [] [] [] []]. Qed.

Lemma isHexDigit_lower_hex (c : ascii) :
  Product.isHexDigit (Product.lower_hex c) = Product.isHexDigit c.
Proof. by destruct c as [[] [] [] [] [] [] [] []]. Qed.

Lemma canonical_idemp (id : string) :
  Product.canonical (Product.canonical id) = Product.canonical id.
Proof.
  induction id as [|c id IH]; simpl; [done|]. by rewrite lower_hex_idemp, IH.
Qed.

Lemma canonical_length (id : string) :
  String.length (Product.canonical id) = String.length id.
Proof. induction id as [|c id IH]; simpl; [done|]. by rewrite IH. Qed.

Lemma isValidObjectId_canonical (id : string) :
  Product.isValidObjectId (Product.canonical id) = Product.isValidObjectId id.
Proof.
  unfold Product.isValidObjectId. rewrite canonical_length. f_equal.
  induction id as [|c id IH]; simpl; [done|].
  by rewrite isHexDigit_lower_hex, IH.
Qed.

Lemma same_id_spec (a b : string) :
  Product.same_id a b = true ↔ Product.canonical a = Product.canonical b.
Proof. apply String.eqb_eq. Qed.

Lemma same_id_false (a b : string) :
  Product.same_id a b = false ↔ Product.canonical a ≠ Product.canonical b.
Proof. apply String.eqb_neq. Qed.

Lemma same_id_eq (a b b' : string) :
  Product.canonical b = Product.canonical b' →
  Product.same_id a b = Product.same_id a b'.
Proof. unfold Product.same_id. by intros ->. Qed.

Lemma lookup_same (id id' : string) (st : Product.store) :
  Product.canonical id = Product.canonical id' →
  Product.lookup id st = Product.lookup id' st.
Proof.
  intros H. induction st as [|x st IH]; simpl; [done|].
  by rewrite (same_id_eq _ _ _ H), IH.
Qed.

Lemma lookup_canonical (id : string) (st : Product.store) :
  Product.lookup (Product.canonical id) st = Product.lookup id st.
Proof. apply lookup_same, canonical_idemp. Qed.

Lemma remove_same (id id' : string) (st : Product.store) :
  Product.canonical id = Product.canonical id' →
  Product.remove id st = Product.remove id' st.
Proof.
  intros H. induction st as [|x st IH]; simpl; [done|].
  by rewrite (same_id_eq _ _ _ H), IH.
Qed.

Lemma remove_canonical (id : string) (st : Product.store) :
  Product.remove (Product.canonical id) st = Product.remove id st.
Proof. apply remove_same, canonical_idemp. Qed.

End Identities.

Section ById.

Import Middleware.

Lemma missing_text_false (v : option json) :
  missing_text v = false →
  ∃ s, v = Some (JString s) ∧ JS.isEmpty s = false
       ∧ JS.isEmpty (JS.trim s) = false.
Proof.
  unfold missing_text. intros H. apply orb_false_elim in H as [Hf Hn].
  destruct v as [[| | |s| |]|]; try discriminate. eauto.
Qed.

Lemma price_errors_nil (v : option json) :
  price_errors v = [] → ∃ q, v = Some (JNumber q) ∧ Qle_bool 0 q = true.
Proof.
  destruct v as [[| |q| | |]|]; try discriminate. simpl.
  destruct (Qle_bool 0 q) eqn:E; [eauto | discriminate].
Qed.

Lemma inStock_errors_nil (v : option json) :
  inStock_errors v = [] → v = None ∨ ∃ b, v = Some (JBool b).
Proof. destruct v as [[|b| | | |]|]; try discriminate; eauto. Qed.

(** What a body that passes [validateProduct] looks like. *)
Lemma validation_errors_nil (b : body) :
  validation_errors b = [] →
  (∃ n, b_name b = Some (JString n) ∧ JS.isEmpty n = false
        ∧ JS.isEmpty (JS.trim n) = false)
  ∧ (∃ d, b_description b = Some (JString d) ∧ JS.isEmpty d = false
          ∧ JS.isEmpty (JS.trim d) = false)
  ∧ (∃ q, b_price b = Some (JNumber q) ∧ Qle_bool 0 q = true)
  ∧ (∃ c, b_category b = Some (JString c) ∧ JS.isEmpty c = false
          ∧ JS.isEmpty (JS.trim c) = false)
  ∧ (b_inStock b = None ∨ ∃ s, b_inStock b = Some (JBool s)).
Proof.
  unfold validation_errors. intros H.
  apply app_eq_nil in H as [H1 H]. apply app_eq_nil in H as [H2 H].
  apply app_eq_nil in H as [H3 H]. apply app_eq_nil in H as [H4 H5].
  destruct (missing_text (b_name b)) eqn:E1; [discriminate|].
  destruct (missing_text (b_description b)) eqn:E2; [discriminate|].
  destruct (missing_text (b_category b)) eqn:E4; [discriminate|].
  split; [by apply missing_text_false|].
  split; [by apply missing_text_false|].
  split; [by apply price_errors_nil|].
  split; [by apply missing_text_false|].
  by apply inStock_errors_nil.
Qed.

(** A body that leaves out a required field does not pass. *)
Lemma validation_errors_missing (b : body) :
  b_name b = None ∨ b_description b = None ∨ b_price b = None
  ∨ b_category b = None →
  validation_errors b ≠ [].
Proof.
  intros H E. apply validation_errors_nil in E
    as ((n & En & _) & (d & Ed & _) & (q & Eq & _) & (c & Ec & _) & _).
  destruct H as [H | [H | [H | H]]]; congruence.
Qed.

Lemma malformed_id_get (st : Product.store) (id : string) :
  Product.isValidObjectId id = false →
  Routes.get_by_id st id = mkResponse 404 (Message "Product Not Found").
Proof.
  intros H. unfold Routes.get_by_id, Product.findById, Product.castObjectId.
  by rewrite H.
Qed.

Lemma malformed_id_delete (st : Product.store) (id : string) :
  Product.isValidObjectId id = false →
  Routes.delete_handler st id
  = (mkResponse 500 (Message "Internal server error"), st).
Proof.
  intros H. unfold Routes.delete_handler, Product.findByIdAndDelete,
    Product.castObjectId. by rewrite H.
Qed.

Lemma malformed_id_put (now : Z) (st : Product.store) (id : string) (b : body) :
  Product.isValidObjectId id = false →
  Routes.put_handler now st id b
  = (mkResponse 500 (Message "Internal server error"), st).
Proof.
  intros H. unfold Routes.put_handler, Product.findByIdAndUpdate,
    Product.castObjectId. rewrite H.
  destruct (Routes.castUpdate b); reflexivity.
Qed.

End ById.

(** An authenticated update of an existing product succeeds when its body
    passes [validateProduct], that is when it gives the name, description,
    price and category; these four are then set (the texts trimmed),
    [inStock] changes only when it is supplied, the identity and the
    creation time stay, and the store stamps [updatedAt].  A body that
    leaves out one of the four is answered 400 and the store is
    unchanged. *)
Lemma put_sets_supplied_fields (env : option string) (now : Z)
  (st : Product.store) (req : Routes.request) (p : Product.t) :
  Middleware.authenticate env (Routes.req_headers req) = None →
  Product.isValidObjectId (Routes.req_id req) = true →
  Product.lookup (Routes.req_id req) st = Some p →
  (Middleware.validation_errors (Routes.req_body req) = [] →
   ∃ n d q c,
     b_name (Routes.req_body req) = Some (JString n)
     ∧ b_description (Routes.req_body req) = Some (JString d)
     ∧ b_price (Routes.req_body req) = Some (JNumber q)
     ∧ b_category (Routes.req_body req) = Some (JString c)
     ∧ let p' :=
         {| Product._id := Product._id p;
            Product.name := JS.trim n;
            Product.description := JS.trim d;
            Product.price := q;
            Product.category := JS.trim c;
            Product.inStock :=
              inStock_after (Routes.req_body req) (Product.inStock p);
            Product.createdAt := Product.createdAt p;
            Product.updatedAt := now |} in
       Routes.put env now st req
       = (mkResponse 200
            (MessageWithProduct "Product updated successfully" p'),
          Product.replace p' st))
  ∧ (b_name (Routes.req_body req) = None
     ∨ b_description (Routes.req_body req) = None
     ∨ b_price (Routes.req_body req) = None
     ∨ b_category (Routes.req_body req) = None →
     ∃ errors,
       Routes.put env now st req
       = (mkResponse 400 (ValidationFailed "Validation failed" errors), st)).
Proof.
  intros Hauth Hid Hp. unfold Routes.put, Middleware.validateProduct.
  rewrite Hauth. split.
  - intros Hv. rewrite Hv.
    destruct (validation_errors_nil _ Hv)
      as ((n & En & Hn & Hn') & (d & Ed & Hd & Hd') & (q & Eq & _)
          & (c & Ec & Hc & Hc') & Hs).
    exists n, d, q, c. repeat (split; [assumption|]).
    unfold Routes.put_handler, Routes.castUpdate, inStock_after.
    rewrite En, Ed, Eq, Ec. simpl. rewrite Hn, Hd, Hc. simpl.
    unfold Product.findByIdAndUpdate, Product.castObjectId,
      Product.runValidators. rewrite Hid. simpl.
    destruct Hs as [-> | [s ->]]; simpl; rewrite Hn', Hd', Hc'; simpl;
      rewrite lookup_canonical, Hp; reflexivity.
  - intros Hmiss. apply validation_errors_missing in Hmiss.
    destruct (Middleware.validation_errors (Routes.req_body req)) as [|e l];
      [congruence|]. eauto.
Qed.

Example put_full_body :
  Routes.put None 7 Sample.shop
    (Routes.mkRequest Sample.api_key (Sample.id 3) Sample.full_body)
  = (mkResponse 200
       (MessageWithProduct "Product updated successfully"
          (Product.mk (Sample.id 3) "Kettle 2" "A better kettle" 40 "kitchen"
             false 0 7)),
     [Sample.phone; Sample.cable;
      Product.mk (Sample.id 3) "Kettle 2" "A better kettle" 40 "kitchen"
        false 0 7]).
Proof.
  destruct (put_sets_supplied_fields None 7 Sample.shop
              (Routes.mkRequest Sample.api_key (Sample.id 3) Sample.full_body)
              Sample.kettle eq_refl eq_refl eq_refl) as [H _].
  destruct (H eq_refl) as (n & d & q & c & En & Ed & Eq & Ec & Hput).
  injection En as <-. injection Ed as <-. injection Eq as <-.
  injection Ec as <-. exact Hput.
Qed.

(** C1 at the failing input, the update example of the README: a body
    with the price and the stock flag only, sent with the right key for a
    product of the store, is refused by [validateProduct] with 400 and
    nothing is changed. *)
Theorem put_partial_body_refused :
  Product.lookup Sample.phone_id Sample.shop = Some Sample.phone
  ∧ Routes.put None 7 Sample.shop
      (Routes.mkRequest Sample.api_key Sample.phone_id Sample.partial_body)
    = (mkResponse 400
         (ValidationFailed "Validation failed"
            ["Name is required and must be a non-empty string";
             "Description is required and must be a non-empty string";
             "Category is required and must be a non-empty string"]),
       Sample.shop).
Proof. split; reflexivity. Qed.

(** C4 at the failing input: with a malformed identity the update and the
    delete routes answer 500, where the read route answers 404 and the
    error handler of the application would answer 400; the store is
    unchanged. *)
Theorem malformed_id_is_internal_error :
  Product.isValidObjectId "not-an-id" = false
  ∧ Routes.delete None Sample.shop
      (Routes.mkRequest Sample.api_key "not-an-id" Sample.full_body)
    = (mkResponse 500 (Message "Internal server error"), Sample.shop)
  ∧ Routes.put None 7 Sample.shop
      (Routes.mkRequest Sample.api_key "not-an-id" Sample.full_body)
    = (mkResponse 500 (Message "Internal server error"), Sample.shop)
  ∧ Routes.get_by_id Sample.shop "not-an-id"
    = mkResponse 404 (Message "Product Not Found")
  ∧ Middleware.errorHandler CastError
    = mkResponse 400 (Message "Invalid ID format").
Proof. repeat split; reflexivity. Qed.

(** ** The filters of the listing *)

Section Filters.

Lemma le_Num (v x : Q) : JS.le (JS.Num v) (JS.Num x) = true ↔ (v <= x)%Q.
Proof. apply Qle_bool_iff. Qed.

Lemma bound_of_spec (raw : option string) :
  bound_of raw
  = if Middleware.truthy_string raw then JS.parseFloat <$> raw else None.
Proof. destruct raw as [[|c s]|]; reflexivity. Qed.

Lemma bound_ok_spec (cmp : JS.number → bool) (b : option JS.number) :
  Query.bound_ok cmp b = true ↔ ∀ n, b = Some n → cmp n = true.
Proof.
  destruct b as [n|]; simpl.
  - split; [intros H ? [= <-]; exact H | eauto].
  - split; [discriminate | reflexivity].
Qed.

Lemma price_condition_selects (minPrice maxPrice : option string)
  (p : Product.t) :
  Query.selects (option_list (Listing.price_condition minPrice maxPrice)) p
  = Query.bound_ok (fun n => JS.le n (JS.Num (Product.price p)))
      (bound_of minPrice)
    && Query.bound_ok (fun n => JS.le (JS.Num (Product.price p)) n)
         (bound_of maxPrice).
Proof.
  unfold Listing.price_condition. rewrite !bound_of_spec.
  destruct (Middleware.truthy_string minPrice),
    (Middleware.truthy_string maxPrice); simpl;
    rewrite ?andb_true_r; reflexivity.
Qed.

Lemma cast_bound_ok (b : option JS.number) :
  b ≠ Some JS.NaN → Query.cast_bound b = Ok tt.
Proof. destruct b as [[]|]; simpl; congruence. Qed.

(** The query on the price alone fails only on a [NaN] bound. *)
Lemma price_condition_find (minPrice maxPrice : option string)
  (st : Product.store) :
  bound_of minPrice ≠ Some JS.NaN → bound_of maxPrice ≠ Some JS.NaN →
  Query.find st (option_list (Listing.price_condition minPrice maxPrice))
  = Ok (List.filter
          (Query.selects
             (option_list (Listing.price_condition minPrice maxPrice))) st).
Proof.
  rewrite !bound_of_spec. unfold Listing.price_condition, Query.find.
  intros Hmin Hmax.
  destruct (Middleware.truthy_string minPrice),
    (Middleware.truthy_string maxPrice); simpl;
    rewrite ?(cast_bound_ok _ Hmin), ?(cast_bound_ok _ Hmax); reflexivity.
Qed.

End Filters.

(** C5, as the code has it.  A [minPrice] or [maxPrice] that is absent or
    empty gives no bound, and only then; any other text gives the bound
    [parseFloat] reads from it, [NaN] when it does not parse.  A product
    satisfies the price filter exactly when its price is at or above the
    lower bound and at or below the upper bound, so a bound that is a
    number admits the price equal to it.  The query on the price raises
    no error as long as no bound is [NaN]. *)
Theorem price_bounds_applied (minPrice maxPrice : option string) :
  (∀ raw, bound_of raw = None ↔ raw = None ∨ raw = Some "")
  ∧ (∀ s, s ≠ "" → bound_of (Some s) = Some (JS.parseFloat s))
  ∧ (bound_of minPrice = None →
     Listing.price_condition minPrice maxPrice
     = Listing.price_condition None maxPrice)
  ∧ (bound_of maxPrice = None →
     Listing.price_condition minPrice maxPrice
     = Listing.price_condition minPrice None)
  ∧ (∀ p : Product.t,
       Query.selects
         (option_list (Listing.price_condition minPrice maxPrice)) p = true
       ↔ (∀ n, bound_of minPrice = Some n →
               JS.le n (JS.Num (Product.price p)) = true)
         ∧ (∀ n, bound_of maxPrice = Some n →
                 JS.le (JS.Num (Product.price p)) n = true))
  ∧ (∀ v x : Q, JS.le (JS.Num v) (JS.Num x) = true ↔ (v <= x)%Q)
  ∧ (∀ st : Product.store,
       bound_of minPrice ≠ Some JS.NaN → bound_of maxPrice ≠ Some JS.NaN →
       ∃ l, Query.find st
              (option_list (Listing.price_condition minPrice maxPrice))
            = Ok l).
Proof.
  split; [|split; [|split; [|split; [|split; [|split]]]]];
    [..|by eauto using price_condition_find].
  - intros [[|c s]|]; simpl; split; intros H; try discriminate; auto.
    destruct H as [H|H]; discriminate.
  - intros [|c s] H; [congruence | reflexivity].
  - rewrite bound_of_spec. unfold Listing.price_condition.
    destruct (Middleware.truthy_string minPrice) eqn:E; [|reflexivity].
    destruct minPrice; simpl; discriminate.
  - rewrite bound_of_spec. unfold Listing.price_condition.
    destruct (Middleware.truthy_string maxPrice) eqn:E; [|reflexivity].
    destruct maxPrice; simpl; discriminate.
  - intros p. rewrite price_condition_selects, andb_true_iff.
    by rewrite !bound_ok_spec.
  - apply le_Num.
Qed.

Lemma price_bounds_applied_witness :
  Listing.price_condition (Some "") (Some "25")
  = Listing.price_condition None (Some "25")
  ∧ bound_of (Some "15") = Some (JS.parseFloat "15").
Proof.
  destruct (price_bounds_applied (Some "") (Some "25"))
    as (_ & Hb & Hmin & _).
  split; [apply Hmin; reflexivity | apply Hb; discriminate].
Defined.

(** C5 as stated fails: a [minPrice] that does not parse is not left out.
    The filter carries the bound [NaN]; the store refuses to cast it and
    the query fails, where the same query without the parameter selects
    the whole store. *)
Lemma unparsable_price_is_a_bound :
  JS.parseFloat "abc" = JS.NaN
  ∧ Listing.price_condition (Some "abc") None
    = Some (Query.CPrice (Some JS.NaN) None)
  ∧ Listing.price_condition None None = None
  ∧ (∃ f, Listing.filter None None (Some "abc") None = Some f
          ∧ Query.find Sample.shop f = Err CastError)
  ∧ (∃ f, Listing.filter None None None None = Some f
          ∧ Query.find Sample.shop f = Ok Sample.shop).
Proof.
  split; [reflexivity|]. split; [reflexivity|]. split; [reflexivity|].
  split; eexists; split; reflexivity.
Qed.

(** *** A category without pattern characters is matched exactly *)

Section PlainCategory.

Import RegExp.

Lemma tokenize_cons (c : ascii) (s : string) :
  Ascii.eqb c "\" = false →
  tokenize (String c s)
  = match classify c with
    | TOther => None
    | t => cons t <$> tokenize s
    end.
Proof.
  destruct c as [[] [] [] [] [] [] [] []]; intros H;
    first [discriminate H | reflexivity].
Qed.

Lemma classify_plain (c : ascii) :
  isSyntaxCharacter c = false →
  classify c = TAtom (Char c) ∧ Ascii.eqb c "\" = false.
Proof.
  destruct c as [[] [] [] [] [] [] [] []]; intros H;
    first [discriminate H | split; reflexivity].
Qed.

Lemma tokenize_plain (c : string) :
  plain c = true →
  tokenize (String.append c "$") = Some (literal_tokens c ++ [TEol])%list.
Proof.
  induction c as [|ch c IH]; [reflexivity|].
  intros H. apply andb_true_iff in H as [Hch Hc].
  apply negb_true_iff, classify_plain in Hch as [Hcl Hbs].
  change (tokenize (String ch (String.append c "$"))
          = Some (TAtom (Char ch) :: (literal_tokens c ++ [TEol])%list)).
  rewrite (tokenize_cons _ _ Hbs), Hcl, (IH Hc). reflexivity.
Qed.

Lemma assemble_literal (c : string) :
  assemble (literal_tokens c ++ [TEol])%list = Some (literal_terms c ++ [Eol])%list.
Proof.
  induction c as [|ch c IH]; [reflexivity|].
  change (assemble (TAtom (Char ch) :: (literal_tokens c ++ [TEol])%list)
          = Some (Atom (Char ch) One :: (literal_terms c ++ [Eol])%list)).
  destruct c as [|ch' c]; [reflexivity|].
  simpl in *. by rewrite IH.
Qed.

Lemma compile_plain (c : string) :
  plain c = true →
  compile (Listing.category_source c)
  = Some (Bol :: literal_terms c ++ [Eol])%list.
Proof.
  intros H. unfold compile, Listing.category_source.
  change (String.append "^" (String.append c "$"))
    with (String "^" (String.append c "$")).
  rewrite tokenize_cons by reflexivity. simpl.
  rewrite (tokenize_plain c H). simpl.
  by rewrite assemble_literal.
Qed.

Lemma fold_case_nil (s : string) : fold_case s = "" ↔ s = "".
Proof. destruct s; simpl; split; congruence. Qed.

Lemma match_here_literal (c s : string) (b : bool) :
  match_here true (literal_terms c ++ [Eol])%list b s = true
  ↔ fold_case s = fold_case c.
Proof.
  revert s b. induction c as [|ch c IH]; intros s b; simpl.
  - rewrite andb_true_r. destruct s; simpl; split; congruence.
  - destruct s as [|x s]; simpl; [split; discriminate|].
    rewrite andb_true_iff, IH, Ascii.eqb_eq. split.
    + intros [-> ->]. reflexivity.
    + intros [= -> ->]. done.
Qed.

Lemma search_anchored_later (p : pattern) (s : string) :
  search true (Bol :: p) false s = false.
Proof. induction s as [|x s IH]; simpl; [reflexivity | exact IH]. Qed.

Lemma test_anchored (p : pattern) (s : string) :
  test true (Bol :: p) s = match_here true p true s.
Proof.
  unfold test. destruct s as [|x s]; simpl.
  - by rewrite orb_false_r.
  - by rewrite search_anchored_later, orb_false_r.
Qed.

Lemma trim_nonempty (s : string) :
  JS.isEmpty (JS.trim s) = false → JS.isEmpty s = false.
Proof. destruct s; [discriminate | reflexivity]. Qed.

(** When the trimmed category has no character of the pattern syntax, the
    filter selects exactly the products whose category equals it up to
    letter case. *)
Lemma category_filter_exact_on_plain_text (category : string)
  (p : Product.t) :
  JS.isEmpty (JS.trim category) = false →
  plain (JS.trim category) = true →
  ∃ c, Listing.category_condition (Some category) = Some (Some c)
       ∧ (Query.matches p c = true
          ↔ fold_case (Product.category p) = fold_case (JS.trim category)).
Proof.
  intros Hne Hplain. unfold Listing.category_condition.
  rewrite (trim_nonempty _ Hne), Hne, (compile_plain _ Hplain). simpl.
  eexists. split; [reflexivity|]. simpl. unfold Query.regex_matches. simpl.
  rewrite test_anchored. apply match_here_literal.
Qed.

End PlainCategory.

(** C3 at the failing input: the category text is used as a pattern, so
    [electronics.*] selects the stored category [electronics-accessories],
    which it does not equal up to letter case. *)
Theorem category_filter_is_a_pattern :
  Product.category Sample.cable = "electronics-accessories"
  ∧ ∃ c, Listing.category_condition (Some "electronics.*") = Some (Some c)
         ∧ Query.matches Sample.cable c = true.
Proof. split; [reflexivity|]. eexists. split; reflexivity. Qed.

(** The example of the specification does hold. *)
Example category_filter_example :
  ∃ c, Listing.category_condition (Some "Electronics") = Some (Some c)
       ∧ Query.matches Sample.phone c = true
       ∧ Query.matches Sample.cable c = false.
Proof. eexists. repeat split; reflexivity. Qed.

(** ** Statistics *)

Section Statistics.

Import Stats.

Lemma traverse_Ok {A B} (f : A → result B) (l : list A) (l' : list B) :
  traverse f l = Ok l' ↔ Forall2 (λ a b, f a = Ok b) l l'.
Proof.
  revert l'. induction l as [|a l IH]; intros l'; simpl.
  - split; [intros [= <-]; constructor | by inversion 1].
  - destruct (f a) as [b|e] eqn:Ea; simpl.
    + destruct (traverse f l) as [bs|e] eqn:El; simpl.
      * split.
        -- intros [= <-]. constructor; [done | by apply IH].
        -- inversion 1 as [|? b' ? bs' Hb Hbs]; subst.
           apply IH in Hbs. congruence.
      * split; [discriminate|].
        inversion 1 as [|? b' ? bs' Hb Hbs]; subst.
        apply IH in Hbs. discriminate.
    + split; [discriminate|]. inversion 1; congruence.
Qed.

Lemma traverse_total {A B} (f : A → result B) (l : list A) :
  Forall (λ a, ∃ b, f a = Ok b) l → ∃ l', traverse f l = Ok l'.
Proof.
  induction 1 as [|a l [b Hb] _ [l' Hl']]; simpl; [eauto|].
  rewrite Hb, Hl'. simpl. eauto.
Qed.

(** Grouping: every document lands in exactly one bucket. *)
Lemma group_insert_count (p : Product.t) (gs : list group) :
  sum_list_with g_count (group_insert p gs)
  = S (sum_list_with g_count gs).
Proof.
  induction gs as [|g gs IH]; simpl; [reflexivity|].
  destruct (String.eqb (g_id g) (Product.category p)); simpl; lia.
Qed.

Lemma cond_eq_le (v : bool) (p : Product.t) : (cond_eq v p <= 1)%nat.
Proof. unfold cond_eq. destruct (Bool.eqb _ _); lia. Qed.

Lemma group_insert_ok (p : Product.t) (gs : list group) :
  Forall group_ok gs → Forall group_ok (group_insert p gs).
Proof.
  induction 1 as [|g gs [Hg1 Hg2] Hgs IH]; simpl.
  - constructor; [|constructor]. split; simpl; [lia | apply cond_eq_le].
  - destruct (String.eqb (g_id g) (Product.category p)).
    + constructor; [|assumption]. pose proof (cond_eq_le true p).
      split; simpl; lia.
    + constructor; [split|]; assumption.
Qed.

Lemma group_fold_count (st : Product.store) (acc : list group) :
  sum_list_with g_count (fold_left (λ gs p, group_insert p gs) st acc)
  = (sum_list_with g_count acc + List.length st)%nat.
Proof.
  revert acc. induction st as [|p st IH]; intros acc; simpl; [lia|].
  rewrite IH, group_insert_count. lia.
Qed.

Lemma group_fold_ok (st : Product.store) (acc : list group) :
  Forall group_ok acc →
  Forall group_ok (fold_left (λ gs p, group_insert p gs) st acc).
Proof.
  revert acc. induction st as [|p st IH]; intros acc H; simpl; [assumption|].
  apply IH, group_insert_ok, H.
Qed.

Lemma group_by_category_count (st : Product.store) :
  sum_list_with g_count (group_by_category st) = List.length st.
Proof. unfold group_by_category. by rewrite group_fold_count. Qed.

Lemma group_by_category_ok (st : Product.store) :
  Forall group_ok (group_by_category st).
Proof. apply group_fold_ok. constructor. Qed.

#[local] Instance count_ge_total : Total count_ge.
Proof. intros g h. unfold count_ge. lia. Qed.

#[local] Instance count_ge_trans : Transitive count_ge.
Proof. intros g h k. unfold count_ge. lia. Qed.

Lemma sort_by_count_ok (gs : list group) :
  Forall group_ok gs → Forall group_ok (sort_by_count gs).
Proof.
  intros H. eapply Permutation_Forall; [|exact H].
  symmetry. apply merge_sort_Permutation.
Qed.

Lemma sort_by_count_sum (gs : list group) :
  sum_list_with g_count (sort_by_count gs) = sum_list_with g_count gs.
Proof.
  apply sum_list_with_Permutation_proper, merge_sort_Permutation.
Qed.

Lemma sort_by_count_sorted (gs : list group) :
  StronglySorted count_ge (sort_by_count gs).
Proof. apply StronglySorted_merge_sort; apply _. Qed.

End Statistics.

Section Percentage.

Import Stats.
Local Open Scope Q_scope.

Lemma round_half_even_bounds (x : Q) (a b : Z) :
  inject_Z a <= x → x <= inject_Z b →
  (a <= round_half_even x <= b)%Z.
Proof.
  intros Ha Hb. unfold round_half_even.
  assert (Hfa : (a <= Qfloor x)%Z).
  { rewrite <- (Qfloor_Z a). by apply Qfloor_resp_le. }
  assert (Hfb : (Qfloor x <= b)%Z).
  { rewrite <- (Qfloor_Z b). by apply Qfloor_resp_le. }
  assert (Hup : 0 < x - inject_Z (Qfloor x) → (Qfloor x + 1 <= b)%Z).
  { intros Hpos.
    assert (Hlt : inject_Z (Qfloor x) < inject_Z b).
    { eapply Qlt_le_trans; [|exact Hb]. by apply Qlt_minus_iff. }
    rewrite <- Zlt_Qlt in Hlt. lia. }
  destruct (Qcompare_spec (x - inject_Z (Qfloor x)) (1 # 2)) as [E|E|E].
  - destruct (Z.even (Qfloor x)); [lia|].
    split; [lia|]. apply Hup. rewrite E. reflexivity.
  - lia.
  - split; [lia|]. apply Hup. eapply Qlt_trans; [|exact E]. reflexivity.
Qed.

Lemma Q_of_nat_pos (n : nat) : (1 <= n)%nat → 0 < Q_of_nat n.
Proof.
  intros H. unfold Q_of_nat. change 0 with (inject_Z 0).
  rewrite <- Zlt_Qlt. lia.
Qed.

Lemma Q_of_nat_le (a b : nat) : (a <= b)%nat → Q_of_nat a <= Q_of_nat b.
Proof. intros H. unfold Q_of_nat. rewrite <- Zle_Qle. lia. Qed.

(** Dividing by the count of a well-formed bucket is defined. *)
Lemma divide_by_count (a : Q) (n : nat) :
  (1 <= n)%nat → divide a (Q_of_nat n) = Ok (a / Q_of_nat n).
Proof.
  intros H. unfold divide.
  destruct (Qeq_bool (Q_of_nat n) 0) eqn:E; [|reflexivity].
  apply Qeq_bool_iff in E. pose proof (Q_of_nat_pos n H) as Hp.
  rewrite E in Hp. by apply Qlt_irrefl in Hp.
Qed.

Lemma ratio_bounds (a b : nat) :
  (1 <= b)%nat → (a <= b)%nat →
  0 <= Q_of_nat a / Q_of_nat b * 100 * 100
  ∧ Q_of_nat a / Q_of_nat b * 100 * 100 <= inject_Z 10000.
Proof.
  intros Hb Hab. pose proof (Q_of_nat_pos b Hb) as Hp.
  assert (H0 : 0 <= Q_of_nat a / Q_of_nat b).
  { apply Qle_shift_div_l; [assumption|]. rewrite Qmult_0_l.
    change 0 with (Q_of_nat 0). apply Q_of_nat_le. lia. }
  assert (H1 : Q_of_nat a / Q_of_nat b <= 1).
  { apply Qle_shift_div_r; [assumption|]. rewrite Qmult_1_l.
    by apply Q_of_nat_le. }
  assert (Hc : 0 <= 100) by (unfold Qle; simpl; lia).
  split.
  - apply Qmult_le_0_compat; [apply Qmult_le_0_compat|]; assumption.
  - apply Qle_trans with (1 * 100 * 100); [|unfold Qle; simpl; lia].
    apply Qmult_le_compat_r; [apply Qmult_le_compat_r|]; assumption.
Qed.

Lemma percentage_bounds (a b : nat) :
  (1 <= b)%nat → (a <= b)%nat →
  0 <= round2 (Q_of_nat a / Q_of_nat b * 100) <= 100.
Proof.
  intros Hb Hab. unfold round2. rewrite Qred_correct.
  destruct (ratio_bounds a b Hb Hab) as [H0 H1].
  destruct (round_half_even_bounds _ 0 10000 H0 H1) as [Hz0 Hz1].
  set (z := round_half_even _) in *. clearbody z.
  unfold Qle, Qdiv, Qmult, Qinv, inject_Z; simpl. lia.
Qed.

(** The [$project] stage succeeds on a well-formed bucket. *)
Lemma project_ok (g : group) :
  group_ok g →
  ∃ c, project g = Ok c
       ∧ count c = g_count g
       ∧ (1 <= count c)%nat
       ∧ 0 <= inStockPercentage c <= 100.
Proof.
  intros [H1 H2]. unfold project. rewrite (divide_by_count _ _ H1). simpl.
  eexists. split; [reflexivity|]. simpl.
  split; [reflexivity|]. split; [assumption|].
  by apply percentage_bounds.
Qed.

End Percentage.

Section CategoryStatistics.

Import Stats.

(** How the entries of the answer relate to the buckets they come from. *)
Lemma project_all (gs : list group) :
  Forall group_ok gs →
  ∃ l, traverse project gs = Ok l
       ∧ Forall2 (λ g c, count c = g_count g) gs l
       ∧ Forall (λ c, (1 <= count c)%nat
                      ∧ (0 <= inStockPercentage c <= 100)%Q) l.
Proof.
  induction 1 as [|g gs Hg _ (l & Hl & Hc & Hp)]; simpl.
  - exists []. repeat constructor.
  - destruct (project_ok g Hg) as (c & Ec & Hcount & Hone & Hpct).
    exists (c :: l). rewrite Ec, Hl. simpl.
    split; [reflexivity|]. split; constructor; auto.
Qed.

Lemma counts_sum (gs : list group) (l : list category_stat) :
  Forall2 (λ g c, count c = g_count g) gs l →
  sum_list_with count l = sum_list_with g_count gs.
Proof. induction 1; simpl; congruence. Qed.

Lemma counts_sorted (gs : list group) (l : list category_stat) :
  Forall2 (λ g c, count c = g_count g) gs l →
  StronglySorted count_ge gs → StronglySorted count_desc l.
Proof.
  induction 1 as [|g c gs l Hgc Hrest IH]; intros Hs; [constructor|].
  apply StronglySorted_inv in Hs as [Hs Hall]. constructor; [by apply IH|].
  clear IH Hs. induction Hrest as [|g' c' gs l Hgc' _ IH]; [constructor|].
  apply Forall_cons in Hall as [Hg' Hall]. constructor; [|by apply IH].
  unfold count_desc, count_ge in *. congruence.
Qed.

(** The per-category pipeline on any store. *)
Lemma categoryStats_ok (st : Product.store) :
  ∃ l, categoryStats st = Ok l
       ∧ sum_list_with count l = List.length st
       ∧ StronglySorted count_desc l
       ∧ Forall (λ c, (1 <= count c)%nat
                      ∧ (0 <= inStockPercentage c <= 100)%Q) l.
Proof.
  unfold categoryStats.
  destruct (project_all (sort_by_count (group_by_category st)))
    as (l & Hl & Hc & Hp).
  { apply sort_by_count_ok, group_by_category_ok. }
  exists l. split; [assumption|]. split; [|split; [|assumption]].
  - by rewrite (counts_sum _ _ Hc), sort_by_count_sum,
      group_by_category_count.
  - eapply counts_sorted; [exact Hc | apply sort_by_count_sorted].
Qed.

End CategoryStatistics.

(** Counting with the empty filter counts the whole store. *)
Lemma countDocuments_all (st : Product.store) :
  Query.countDocuments st [] = Ok (List.length st).
Proof.
  unfold Query.countDocuments, Query.find. simpl. do 2 f_equal.
  induction st as [|p st IH]; simpl; congruence.
Qed.

(** C7.  On an empty store the statistics succeed with [totalProducts = 0],
    [inStockPercentage = 0] (the number, no division is made) and the empty
    object for [priceStatistics]. *)
Theorem stats_of_empty_store (now : Z) :
  Stats.handler now []
  = mkResponse 200
      (Statistics
         {| stats_summary :=
              {| totalProducts := 0;
                 inStock := 0;
                 outOfStock := 0;
                 summary_inStockPercentage := PctNumber 0 |};
            priceStatistics := None;
            categories := [];
            lastUpdated := now |}).
Proof. reflexivity. Qed.

(** C8.  Whatever the store holds, the statistics succeed, the [count]s of
    the category entries add up to [summary.totalProducts], and the entries
    come in descending order of [count]. *)
Theorem stats_counts_sum_and_order (now : Z) (st : Product.store) :
  ∃ s, Stats.handler now st = mkResponse 200 (Statistics s)
       ∧ totalProducts (stats_summary s) = List.length st
       ∧ sum_list_with count (categories s) = totalProducts (stats_summary s)
       ∧ StronglySorted count_desc (categories s).
Proof.
  destruct (categoryStats_ok st) as (l & Hl & Hsum & Hsorted & _).
  unfold Stats.handler, Stats.statistics. rewrite countDocuments_all.
  simpl. rewrite Hl. simpl.
  eexists. split; [reflexivity|]. simpl. auto.
Qed.

(** C9.  Every bucket of the grouping on category holds at least one
    document, so the [$divide] of the projection never meets a zero count:
    the pipeline returns its entries, and each [inStockPercentage] lies in
    [0, 100]. *)
Theorem category_percentage_is_safe (st : Product.store) :
  Forall group_ok (Stats.group_by_category st)
  ∧ Forall (λ g, ∃ r, Stats.divide (Stats.Q_of_nat (Stats.g_inStock g))
                        (Stats.Q_of_nat (Stats.g_count g)) = Ok r)
      (Stats.sort_by_count (Stats.group_by_category st))
  ∧ ∃ l, Stats.categoryStats st = Ok l
         ∧ Forall (λ c, (1 <= count c)%nat
                        ∧ (0 <= inStockPercentage c <= 100)%Q) l.
Proof.
  split; [apply group_by_category_ok|]. split.
  - eapply Forall_impl; [apply sort_by_count_ok, group_by_category_ok|].
    intros g [H1 _]. eexists. by apply divide_by_count.
  - destruct (categoryStats_ok st) as (l & Hl & _ & _ & Hp). eauto.
Qed.

(** * Further properties of the code *)

(** ** Trimming *)

Section Trim.

Lemma trimStart_clean (s : string) : starts_clean (JS.trimStart s).
Proof.
  induction s as [|c s IH]; simpl; [exact I|].
  destruct (JS.isWhiteSpace c) eqn:E; [exact IH | exact E].
Qed.

Lemma trimStart_of_clean (s : string) :
  starts_clean s → JS.trimStart s = s.
Proof. destruct s as [|c s]; simpl; [reflexivity|]. by intros ->. Qed.

Lemma trimEnd_clean (s : string) :
  starts_clean s → starts_clean (JS.trimEnd s).
Proof.
  destruct s as [|c s]; simpl; [done|]. intros H. rewrite H. exact H.
Qed.

Lemma trimEnd_idemp (s : string) : JS.trimEnd (JS.trimEnd s) = JS.trimEnd s.
Proof.
  induction s as [|c s IH]; simpl; [reflexivity|].
  destruct (JS.isWhiteSpace c && JS.isEmpty (JS.trimEnd s)) eqn:E;
    [reflexivity|].
  simpl. by rewrite IH, E.
Qed.

Lemma trim_idemp (s : string) : JS.trim (JS.trim s) = JS.trim s.
Proof.
  unfold JS.trim.
  rewrite (trimStart_of_clean (JS.trimEnd (JS.trimStart s)))
    by apply trimEnd_clean, trimStart_clean.
  apply trimEnd_idemp.
Qed.

Lemma trimEnd_last (s : string) (c : ascii) :
  last_char (JS.trimEnd s) = Some c → JS.isWhiteSpace c = false.
Proof.
  induction s as [|x s IH]; simpl; [discriminate|].
  destruct (JS.isWhiteSpace x && JS.isEmpty (JS.trimEnd s)) eqn:E;
    [discriminate|].
  simpl. destruct (JS.trimEnd s) as [|y t] eqn:Et.
  - intros [= <-]. simpl in E. by rewrite andb_true_r in E.
  - exact IH.
Qed.

Lemma isEmpty_false (s : string) : JS.isEmpty s = false ↔ s ≠ "".
Proof. destruct s; simpl; split; congruence. Qed.

End Trim.

(** [trim] is idempotent, and a trimmed text neither starts nor ends with
    white space. *)
Lemma trim_is_clean (s : string) :
  JS.trim (JS.trim s) = JS.trim s
  ∧ starts_clean (JS.trim s)
  ∧ ∀ c, last_char (JS.trim s) = Some c → JS.isWhiteSpace c = false.
Proof.
  split; [apply trim_idemp|]. split.
  - apply trimEnd_clean, trimStart_clean.
  - apply trimEnd_last.
Qed.

(** ** The middlewares *)

Section MiddlewareFacts.

Import Middleware.

Lemma or_else_presented (h : headers) :
  or_else (x_api_key h) (authorization h)
  = match presented_key h with
    | Some k => Some k
    | None =>
        match authorization h with
        | Some EmptyString => Some EmptyString
        | _ => None
        end
    end
  ∧ truthy_string (or_else (x_api_key h) (authorization h))
    = bool_decide (is_Some (presented_key h)).
Proof.
  unfold or_else, presented_key.
  destruct (x_api_key h) as [[|c k]|], (authorization h) as [[|c' k']|];
    simpl; split; reflexivity.
Qed.

Lemma or_else_configured (env : option string) :
  or_else env (Some "default-secret-key-123") = Some (configured_key env).
Proof. destruct env as [[|c k]|]; reflexivity. Qed.

Lemma authenticate_cases (env : option string) (h : headers) :
  authenticate env h
  = match presented_key h with
    | None =>
        Some (mkResponse 401 (Message "Access denied. No API key provided."))
    | Some k =>
        if String.eqb k (configured_key env) then None
        else Some (mkResponse 403 (Message "Invalid API key."))
    end.
Proof.
  unfold authenticate. destruct (or_else_presented h) as [Ho Ht].
  rewrite Ht, or_else_configured, Ho.
  destruct (presented_key h) as [k|]; simpl.
  - by destruct (String.eqb k (configured_key env)).
  - by destruct (authorization h) as [[|]|].
Qed.

Lemma authenticate_None (env : option string) (h : headers) :
  authenticate env h = None ↔ presented_key h = Some (configured_key env).
Proof.
  rewrite authenticate_cases. destruct (presented_key h) as [k|].
  - destruct (String.eqb_spec k (configured_key env)); split;
      congruence.
  - split; discriminate.
Qed.

Lemma authenticate_refusal (env : option string) (h : headers) (r : response) :
  authenticate env h = Some r → status r = 401 ∨ status r = 403.
Proof.
  rewrite authenticate_cases. destruct (presented_key h) as [k|].
  - destruct (String.eqb k (configured_key env)); [discriminate|].
    intros [= <-]. by right.
  - intros [= <-]. by left.
Qed.

Lemma missing_text_ok (v : option json) :
  missing_text v = false ↔ text_ok v.
Proof.
  unfold text_ok. split.
  - intros H. destruct (missing_text_false v H) as (s & -> & _ & Ht).
    exists s. split; [reflexivity|]. by apply isEmpty_false.
  - intros (s & -> & Ht). apply isEmpty_false in Ht.
    unfold missing_text. simpl. rewrite Ht.
    destruct s; [discriminate Ht | reflexivity].
Qed.

Lemma price_errors_ok (v : option json) :
  price_errors v = [] ↔ ∃ q, v = Some (JNumber q) ∧ (0 <= q)%Q.
Proof.
  split.
  - intros H. destruct (price_errors_nil v H) as (q & -> & Hq).
    exists q. split; [reflexivity|]. by apply Qle_bool_iff.
  - intros (q & -> & Hq). apply Qle_bool_iff in Hq. simpl. by rewrite Hq.
Qed.

Lemma inStock_errors_ok (v : option json) :
  inStock_errors v = [] ↔ v = None ∨ ∃ s, v = Some (JBool s).
Proof.
  split; [apply inStock_errors_nil|]. by intros [-> | [s ->]].
Qed.

Lemma validation_errors_ok (b : body) :
  validation_errors b = [] ↔ body_ok b.
Proof.
  unfold body_ok.
  rewrite <- !missing_text_ok, <- price_errors_ok, <- inStock_errors_ok.
  unfold validation_errors. split.
  - intros H.
    apply app_eq_nil in H as [H1 H]. apply app_eq_nil in H as [H2 H].
    apply app_eq_nil in H as [H3 H]. apply app_eq_nil in H as [H4 H5].
    destruct (missing_text (b_name b)); [discriminate|].
    destruct (missing_text (b_description b)); [discriminate|].
    destruct (missing_text (b_category b)); [discriminate|].
    auto.
  - intros (-> & -> & -> & -> & ->). reflexivity.
Qed.

Lemma trim_field_text (v : option json) :
  text_ok v → text_ok (trim_field v) ∧ trim_field (trim_field v) = trim_field v.
Proof.
  intros (s & -> & Hs). simpl.
  assert (Hne : JS.isEmpty s = false).
  { destruct s; [by destruct Hs | reflexivity]. }
  rewrite Hne. split.
  - exists (JS.trim s). split; [reflexivity|]. by rewrite trim_idemp.
  - simpl. apply isEmpty_false in Hs. rewrite Hs. by rewrite trim_idemp.
Qed.

Lemma trimmed_ok (b : body) :
  body_ok b → body_ok (trimmed b) ∧ trimmed (trimmed b) = trimmed b.
Proof.
  intros (Hn & Hd & Hp & Hc & Hs).
  destruct (trim_field_text _ Hn) as [Hn1 Hn2].
  destruct (trim_field_text _ Hd) as [Hd1 Hd2].
  destruct (trim_field_text _ Hc) as [Hc1 Hc2].
  split; [by repeat split|].
  unfold trimmed. simpl. by rewrite Hn2, Hd2, Hc2.
Qed.

Lemma validateProduct_cases (b : body) :
  validateProduct b
  = match validation_errors b with
    | [] => inr (trimmed b)
    | errors =>
        inl (mkResponse 400 (ValidationFailed "Validation failed" errors))
    end.
Proof. reflexivity. Qed.

End MiddlewareFacts.

(** X1.  [validateProduct] lets a body through exactly when its name,
    description and category are texts that are not blank, its price is a
    number that is not negative (zero passes) and [inStock] is absent or a
    boolean; the body then goes on with the three texts trimmed.  Every
    other body is answered 400 with at least one message. *)
Theorem validateProduct_accepts (b : body) :
  (∀ b', Middleware.validateProduct b = inr b' ↔ body_ok b ∧ b' = trimmed b)
  ∧ (∀ r, Middleware.validateProduct b = inl r ↔
          ¬ body_ok b
          ∧ r = mkResponse 400
                  (ValidationFailed "Validation failed"
                     (Middleware.validation_errors b))).
Proof.
  pose proof (validation_errors_ok b) as Hok.
  split; intros x; rewrite validateProduct_cases;
    destruct (Middleware.validation_errors b) as [|e l]; split.
  - intros [= <-]. split; [by apply Hok | reflexivity].
  - intros [_ ->]. reflexivity.
  - discriminate.
  - intros [H _]. apply Hok in H. discriminate H.
  - discriminate.
  - intros [H _]. destruct H. by apply Hok.
  - intros [= <-]. split; [|reflexivity]. intros H. apply Hok in H.
    discriminate H.
  - intros [_ ->]. reflexivity.
Qed.

(** X2.  A body that passed [validateProduct] passes it again unchanged:
    the middleware is idempotent on what it lets through. *)
Theorem validateProduct_idempotent (b b' : body) :
  Middleware.validateProduct b = inr b' →
  Middleware.validateProduct b' = inr b'.
Proof.
  rewrite validateProduct_cases.
  destruct (Middleware.validation_errors b) as [|e l] eqn:E; [|discriminate].
  intros [= <-]. apply validation_errors_ok, trimmed_ok in E as [Hok Hid].
  rewrite validateProduct_cases.
  apply validation_errors_ok in Hok. rewrite Hok. by rewrite Hid.
Qed.

Lemma validateProduct_idempotent_witness :
  Middleware.validateProduct (trimmed Sample.full_body)
  = inr (trimmed Sample.full_body).
Proof.
  apply (validateProduct_idempotent Sample.full_body). reflexivity.
Defined.

(** X3.  [authenticate] reads the key from [x-api-key], or from
    [authorization] when that header is absent or empty.  Without a key the
    answer is 401; with a key other than the configured one it is 403, also
    when the other header carries the right key; only the configured key
    lets the request through. *)
Theorem authenticate_outcome (env : option string) (h : headers) :
  Middleware.authenticate env h
  = match presented_key h with
    | None =>
        Some (mkResponse 401 (Message "Access denied. No API key provided."))
    | Some k =>
        if String.eqb k (configured_key env) then None
        else Some (mkResponse 403 (Message "Invalid API key."))
    end
  ∧ (∀ k k', k ≠ "" → k ≠ configured_key env →
       x_api_key h = Some k → authorization h = Some k' →
       Middleware.authenticate env h
       = Some (mkResponse 403 (Message "Invalid API key."))).
Proof.
  split; [apply authenticate_cases|].
  intros k k' Hk Hne Hx Ha. rewrite authenticate_cases.
  unfold presented_key. rewrite Hx.
  destruct k as [|c k]; [by destruct Hk|].
  destruct (String.eqb_spec (String c k) (configured_key env)); [|reflexivity].
  by destruct Hne.
Qed.

Lemma authenticate_outcome_witness :
  Middleware.authenticate None
    (mkHeaders (Some "guess") (Some "default-secret-key-123"))
  = Some (mkResponse 403 (Message "Invalid API key.")).
Proof.
  apply (proj2 (authenticate_outcome None
                  (mkHeaders (Some "guess") (Some "default-secret-key-123")))
           "guess" "default-secret-key-123"); [discriminate..|reflexivity|reflexivity].
Defined.

(** X4.  Without the configured key the update, delete and creation routes
    answer 401 or 403 and leave the store as it is. *)
Theorem protected_routes_need_key (env : option string) (now : Z)
  (fresh : string) (st : Product.store) (req : Routes.request) :
  presented_key (Routes.req_headers req) ≠ Some (configured_key env) →
  ∃ r, (status r = 401 ∨ status r = 403)
       ∧ Routes.put env now st req = (r, st)
       ∧ Routes.delete env st req = (r, st)
       ∧ Creation.post env now fresh st (Routes.req_headers req)
           (Routes.req_body req) = (r, st).
Proof.
  intros H. unfold Routes.put, Routes.delete, Creation.post.
  destruct (Middleware.authenticate env (Routes.req_headers req)) as [r|] eqn:E.
  - exists r. split; [by eapply authenticate_refusal|]. auto.
  - by apply authenticate_None in E.
Qed.

Lemma protected_routes_need_key_witness :
  ∃ r, (status r = 401 ∨ status r = 403)
       ∧ Routes.put None 7 Sample.shop
           (Routes.mkRequest (mkHeaders None None) Sample.phone_id
              Sample.full_body) = (r, Sample.shop)
       ∧ Routes.delete None Sample.shop
           (Routes.mkRequest (mkHeaders None None) Sample.phone_id
              Sample.full_body) = (r, Sample.shop)
       ∧ Creation.post None 7 (Sample.id 9) Sample.shop (mkHeaders None None)
           Sample.full_body = (r, Sample.shop).
Proof.
  apply (protected_routes_need_key None 7 (Sample.id 9) Sample.shop
           (Routes.mkRequest (mkHeaders None None) Sample.phone_id
              Sample.full_body)).
  discriminate.
Defined.

(** ** The store behind the routes on one product *)

Section StoreFacts.

Lemma lookup_Some (id : string) (st : Product.store) (p : Product.t) :
  Product.lookup id st = Some p →
  Product.canonical (Product._id p) = Product.canonical id ∧ In p st.
Proof.
  induction st as [|x st IH]; simpl; [discriminate|].
  destruct (Product.same_id (Product._id x) id) eqn:E.
  - intros [= <-]. apply same_id_spec in E. auto.
  - intros H. destruct (IH H). auto.
Qed.

Lemma lookup_None (id : string) (st : Product.store) :
  Product.lookup id st = None ↔ ¬ In (Product.canonical id) (identities st).
Proof.
  induction st as [|x st IH]; simpl; [tauto|].
  destruct (Product.same_id (Product._id x) id) eqn:E.
  - apply same_id_spec in E. split; [discriminate | tauto].
  - apply same_id_false in E. rewrite IH. tauto.
Qed.

Lemma lookup_None_ids (id : string) (st : Product.store) :
  Product.lookup id st = None → ¬ In id (ids st).
Proof.
  intros H Hin. apply lookup_None in H. apply H.
  unfold identities. by apply in_map.
Qed.

Lemma ids_replace (id : string) (q p : Product.t) (st : Product.store) :
  Product.lookup id st = Some p → Product._id q = Product._id p →
  ids (Product.replace q st) = ids st.
Proof.
  intros Hp Hq.
  assert (Hc : Product.canonical (Product._id q) = Product.canonical id).
  { rewrite Hq. by apply (lookup_Some _ _ _ Hp). }
  revert Hp. induction st as [|x st IH]; simpl; [reflexivity|].
  rewrite (same_id_eq _ _ _ Hc).
  destruct (Product.same_id (Product._id x) id); simpl.
  - intros [= ->]. by rewrite Hq.
  - intros H. by rewrite IH.
Qed.

Lemma lookup_replace (q p : Product.t) (st : Product.store) :
  Product.lookup (Product._id q) st = Some p →
  Product.lookup (Product._id q) (Product.replace q st) = Some q.
Proof.
  induction st as [|x st IH]; simpl; [discriminate|].
  destruct (Product.same_id (Product._id x) (Product._id q)) eqn:E; simpl.
  - unfold Product.same_id. by rewrite String.eqb_refl.
  - intros H. rewrite E. by apply IH.
Qed.

Lemma lookup_replace_ne (id : string) (q : Product.t) (st : Product.store) :
  Product.canonical id ≠ Product.canonical (Product._id q) →
  Product.lookup id (Product.replace q st) = Product.lookup id st.
Proof.
  intros Hne. induction st as [|x st IH]; simpl; [reflexivity|].
  assert (Hq : Product.same_id (Product._id q) id = false).
  { apply same_id_false. congruence. }
  destruct (Product.same_id (Product._id x) (Product._id q)) eqn:E; simpl.
  - rewrite Hq. apply same_id_spec in E.
    assert (Hx : Product.same_id (Product._id x) id = false).
    { apply same_id_false. congruence. }
    by rewrite Hx.
  - by rewrite IH.
Qed.

Lemma Forall_replace (P : Product.t → Prop) (q : Product.t)
  (st : Product.store) :
  P q → Forall P st → Forall P (Product.replace q st).
Proof.
  intros Hq. induction 1 as [|x st Hx Hst IH]; simpl; [constructor|].
  destruct (Product.same_id (Product._id x) (Product._id q)); by constructor.
Qed.

Lemma lookup_remove_ne (id id' : string) (st : Product.store) :
  Product.canonical id' ≠ Product.canonical id →
  Product.lookup id' (Product.remove id st) = Product.lookup id' st.
Proof.
  intros Hne. induction st as [|x st IH]; simpl; [reflexivity|].
  destruct (Product.same_id (Product._id x) id) eqn:E; simpl.
  - apply same_id_spec in E.
    assert (Hx : Product.same_id (Product._id x) id' = false).
    { apply same_id_false. congruence. }
    by rewrite Hx.
  - by rewrite IH.
Qed.

Lemma ids_remove_subset (id i : string) (st : Product.store) :
  In i (ids (Product.remove id st)) → In i (ids st).
Proof.
  induction st as [|x st IH]; simpl; [tauto|].
  destruct (Product.same_id (Product._id x) id); simpl; tauto.
Qed.

Lemma NoDup_remove (id : string) (st : Product.store) :
  List.NoDup (ids st) → List.NoDup (ids (Product.remove id st)).
Proof.
  induction st as [|x st IH]; simpl; [intros; constructor|].
  intros H. apply List.NoDup_cons_iff in H as [Hx Hst].
  destruct (Product.same_id (Product._id x) id); simpl; [assumption|].
  apply List.NoDup_cons_iff. split; [|by apply IH].
  intros H. by apply ids_remove_subset in H.
Qed.

(** Once the identities differ as ObjectIds, a removed one is gone. *)
Lemma identities_remove (id : string) (st : Product.store) :
  List.NoDup (identities st) →
  ¬ In (Product.canonical id) (identities (Product.remove id st)).
Proof.
  induction st as [|x st IH]; simpl; [tauto|].
  intros H. apply List.NoDup_cons_iff in H as [Hx Hst].
  destruct (Product.same_id (Product._id x) id) eqn:E; simpl.
  - apply same_id_spec in E. by rewrite <- E.
  - apply same_id_false in E. specialize (IH Hst). tauto.
Qed.

Lemma length_remove (id : string) (st : Product.store) (p : Product.t) :
  Product.lookup id st = Some p →
  List.length st = S (List.length (Product.remove id st)).
Proof.
  induction st as [|x st IH]; simpl; [discriminate|].
  destruct (Product.same_id (Product._id x) id); simpl; [reflexivity|].
  intros H. by rewrite (IH H).
Qed.

Lemma Forall_remove (P : Product.t → Prop) (id : string)
  (st : Product.store) :
  Forall P st → Forall P (Product.remove id st).
Proof.
  induction 1 as [|x st Hx Hst IH]; simpl; [constructor|].
  destruct (Product.same_id (Product._id x) id); [assumption | by constructor].
Qed.

Lemma lookup_snoc (id : string) (st : Product.store) (p : Product.t) :
  Product.lookup id (st ++ [p])%list
  = match Product.lookup id st with
    | Some x => Some x
    | None => if Product.same_id (Product._id p) id then Some p else None
    end.
Proof.
  induction st as [|x st IH]; simpl; [reflexivity|].
  destruct (Product.same_id (Product._id x) id); [reflexivity | exact IH].
Qed.

Lemma ids_snoc (st : Product.store) (p : Product.t) :
  ids (st ++ [p])%list = (ids st ++ [Product._id p])%list.
Proof. unfold ids. by rewrite map_app. Qed.

End StoreFacts.

(** ** The routes that write *)

Section Writes.

Import Middleware.

Lemma text_ok_shape (v : option json) :
  text_ok v →
  ∃ s, v = Some (JString s) ∧ JS.isEmpty s = false
       ∧ JS.isEmpty (JS.trim s) = false.
Proof.
  intros (s & -> & Hs). exists s. split; [reflexivity|].
  split; [|by apply isEmpty_false]. destruct s; [by destruct Hs | reflexivity].
Qed.

(** The update route behind a valid key and an accepted body. *)
Lemma put_authorized (env : option string) (now : Z) (st : Product.store)
  (req : Routes.request) :
  authenticate env (Routes.req_headers req) = None →
  body_ok (Routes.req_body req) →
  Routes.put env now st req
  = if Product.isValidObjectId (Routes.req_id req) then
      match Product.lookup (Routes.req_id req) st with
      | Some p =>
          let p' := updated now (Routes.req_body req) p in
          (mkResponse 200
             (MessageWithProduct "Product updated successfully" p'),
           Product.replace p' st)
      | None => (mkResponse 404 (Message "Product not found"), st)
      end
    else (mkResponse 500 (Message "Internal server error"), st).
Proof.
  intros Hauth Hok. unfold Routes.put. rewrite Hauth, validateProduct_cases.
  pose proof (proj2 (validation_errors_ok _) Hok) as Hv. rewrite Hv.
  destruct Hok as (Hn & Hd & (q & Eq & _) & Hc & Hs).
  apply text_ok_shape in Hn as (n & En & Hn & Hn').
  apply text_ok_shape in Hd as (d & Ed & Hd & Hd').
  apply text_ok_shape in Hc as (c & Ec & Hc & Hc').
  unfold Routes.put_handler, Routes.castUpdate, trimmed, updated, text_of,
    number_of, inStock_after.
  rewrite En, Ed, Eq, Ec. simpl. rewrite Hn, Hd, Hc. simpl.
  unfold Product.findByIdAndUpdate, Product.castObjectId,
    Product.runValidators.
  destruct (Product.isValidObjectId (Routes.req_id req));
    destruct Hs as [-> | [s ->]]; simpl; try reflexivity;
    rewrite Hn', Hd', Hc'; simpl; rewrite lookup_canonical;
    destruct (Product.lookup (Routes.req_id req) st); reflexivity.
Qed.

(** The delete route behind a valid key. *)
Lemma delete_authorized (env : option string) (st : Product.store)
  (req : Routes.request) :
  authenticate env (Routes.req_headers req) = None →
  Routes.delete env st req
  = if Product.isValidObjectId (Routes.req_id req) then
      match Product.lookup (Routes.req_id req) st with
      | Some p =>
          (mkResponse 200
             (MessageWithProduct "Product deleted successfully" p),
           Product.remove (Routes.req_id req) st)
      | None => (mkResponse 404 (Message "Product not found"), st)
      end
    else (mkResponse 500 (Message "Internal server error"), st).
Proof.
  intros Hauth. unfold Routes.delete. rewrite Hauth.
  unfold Routes.delete_handler, Product.findByIdAndDelete,
    Product.castObjectId.
  destruct (Product.isValidObjectId (Routes.req_id req)); simpl;
    [|reflexivity].
  rewrite lookup_canonical, remove_canonical.
  destruct (Product.lookup (Routes.req_id req) st); reflexivity.
Qed.

(** The creation route behind a valid key and an accepted body. *)
Lemma post_authorized (env : option string) (now : Z) (fresh : string)
  (st : Product.store) (h : headers) (b : body) :
  authenticate env h = None →
  body_ok b →
  Creation.post env now fresh st h b
  = match Product.lookup fresh st with
    | None =>
        let p := created now fresh b in
        (mkResponse 201
           (MessageWithProduct "Product created successfully" p),
         (st ++ [p])%list)
    | Some _ =>
        (mkResponse 500 (Message "Creating New Product was unsuccessful!"),
         st)
    end.
Proof.
  intros Hauth Hok. unfold Creation.post. rewrite Hauth, validateProduct_cases.
  pose proof (proj2 (validation_errors_ok _) Hok) as Hv. rewrite Hv.
  destruct Hok as (Hn & Hd & (q & Eq & _) & Hc & Hs).
  apply text_ok_shape in Hn as (n & En & Hn & Hn').
  apply text_ok_shape in Hd as (d & Ed & Hd & Hd').
  apply text_ok_shape in Hc as (c & Ec & Hc & Hc').
  unfold Creation.post_handler, Routes.castUpdate, trimmed, created, text_of,
    number_of, inStock_after, Creation.inStock_or_true.
  rewrite En, Ed, Eq, Ec. simpl. rewrite Hn, Hd, Hc. simpl.
  unfold Creation.save.
  destruct Hs as [-> | [s ->]]; simpl; rewrite Hn', Hd', Hc'; simpl;
    destruct (Product.lookup fresh st); reflexivity.
Qed.

Lemma text_of_ok (v : option json) (old : string) :
  text_ok v →
  JS.trim (text_of v old) = text_of v old ∧ text_of v old ≠ "".
Proof.
  intros (s & -> & Hs). simpl. split; [apply trim_idemp | exact Hs].
Qed.

Lemma updated_well_formed (now : Z) (b : body) (p : Product.t) :
  body_ok b → well_formed (updated now b p).
Proof.
  intros (Hn & Hd & (q & Eq & Hq) & Hc & _). unfold well_formed, updated.
  simpl. destruct (text_of_ok _ (Product.name p) Hn).
  destruct (text_of_ok _ (Product.description p) Hd).
  destruct (text_of_ok _ (Product.category p) Hc).
  rewrite Eq. simpl. auto 10.
Qed.

Lemma created_well_formed (now : Z) (fresh : string) (b : body) :
  body_ok b → well_formed (created now fresh b).
Proof.
  intros (Hn & Hd & (q & Eq & Hq) & Hc & _). unfold well_formed, created.
  simpl. destruct (text_of_ok _ "" Hn). destruct (text_of_ok _ "" Hd).
  destruct (text_of_ok _ "" Hc). rewrite Eq. simpl. auto 10.
Qed.

(** What a request can do to the store, whatever the request. *)
Lemma put_store (env : option string) (now : Z) (st : Product.store)
  (req : Routes.request) :
  (Routes.put env now st req).2 = st
  ∨ ∃ p, body_ok (Routes.req_body req)
         ∧ Product.lookup (Routes.req_id req) st = Some p
         ∧ (Routes.put env now st req).2
           = Product.replace (updated now (Routes.req_body req) p) st.
Proof.
  destruct (authenticate env (Routes.req_headers req)) as [r|] eqn:Hauth.
  { left. unfold Routes.put. by rewrite Hauth. }
  destruct (validation_errors (Routes.req_body req)) as [|e l] eqn:Hv.
  - apply validation_errors_ok in Hv. rewrite (put_authorized _ _ _ _ Hauth Hv).
    destruct (Product.isValidObjectId (Routes.req_id req)); [|by left].
    destruct (Product.lookup (Routes.req_id req) st) as [p|] eqn:Hp;
      [|by left].
    right. exists p. auto.
  - left. unfold Routes.put. by rewrite Hauth, validateProduct_cases, Hv.
Qed.

Lemma delete_store (env : option string) (st : Product.store)
  (req : Routes.request) :
  (Routes.delete env st req).2 = st
  ∨ (Routes.delete env st req).2 = Product.remove (Routes.req_id req) st.
Proof.
  destruct (authenticate env (Routes.req_headers req)) as [r|] eqn:Hauth.
  { left. unfold Routes.delete. by rewrite Hauth. }
  rewrite (delete_authorized _ _ _ Hauth).
  destruct (Product.isValidObjectId (Routes.req_id req)); [|by left].
  destruct (Product.lookup (Routes.req_id req) st); [by right | by left].
Qed.

Lemma post_store (env : option string) (now : Z) (fresh : string)
  (st : Product.store) (h : headers) (b : body) :
  (Creation.post env now fresh st h b).2 = st
  ∨ body_ok b ∧ Product.lookup fresh st = None
    ∧ (Creation.post env now fresh st h b).2
      = (st ++ [created now fresh b])%list.
Proof.
  destruct (authenticate env h) as [r|] eqn:Hauth.
  { left. unfold Creation.post. by rewrite Hauth. }
  destruct (validation_errors b) as [|e l] eqn:Hv.
  - apply validation_errors_ok in Hv.
    rewrite (post_authorized _ _ _ _ _ _ Hauth Hv).
    destruct (Product.lookup fresh st) eqn:Hf; [by left|]. right. auto.
  - left. unfold Creation.post. by rewrite Hauth, validateProduct_cases, Hv.
Qed.

Lemma get_by_id_cases (st : Product.store) (id : string) :
  Routes.get_by_id st id
  = if Product.isValidObjectId id then
      match Product.lookup id st with
      | Some p => mkResponse 200 (Document p)
      | None => mkResponse 404 (Message "Product not found")
      end
    else mkResponse 404 (Message "Product Not Found").
Proof.
  unfold Routes.get_by_id, Product.findById, Product.castObjectId.
  destruct (Product.isValidObjectId id); simpl; [|reflexivity].
  rewrite lookup_canonical. by destruct (Product.lookup id st).
Qed.

(** A read does not see how the identity is spelled. *)
Lemma get_by_id_same (st : Product.store) (id id' : string) :
  Product.canonical id' = Product.canonical id →
  Routes.get_by_id st id' = Routes.get_by_id st id.
Proof.
  intros H. rewrite !get_by_id_cases, (lookup_same _ _ _ H).
  by rewrite <- (isValidObjectId_canonical id'), H, isValidObjectId_canonical.
Qed.

End Writes.

(** X5.  Reading a product answers 200 with a stored product of that
    identity exactly when the identity is well formed and in the store;
    every other request is answered 404, never 500.  The identity is the
    ObjectId that the text spells: the case of its digits plays no part,
    so every spelling of an identity is answered alike. *)
Theorem get_by_id_outcome (st : Product.store) (id : string) :
  (∀ p, Routes.get_by_id st id = mkResponse 200 (Document p)
        ↔ Product.isValidObjectId id = true ∧ Product.lookup id st = Some p)
  ∧ (∀ p, Routes.get_by_id st id = mkResponse 200 (Document p) →
          Product.canonical (Product._id p) = Product.canonical id ∧ In p st)
  ∧ ((∃ p, Routes.get_by_id st id = mkResponse 200 (Document p))
     ↔ Product.isValidObjectId id = true
       ∧ In (Product.canonical id) (identities st))
  ∧ (∀ id', Product.canonical id' = Product.canonical id →
            Routes.get_by_id st id' = Routes.get_by_id st id)
  ∧ (status (Routes.get_by_id st id) = 200
     ∨ status (Routes.get_by_id st id) = 404).
Proof.
  assert (H : ∀ p, Routes.get_by_id st id = mkResponse 200 (Document p)
                   ↔ Product.isValidObjectId id = true
                     ∧ Product.lookup id st = Some p).
  { intros p. rewrite get_by_id_cases.
    destruct (Product.isValidObjectId id);
      [|split; [discriminate | intros [? _]; discriminate]].
    destruct (Product.lookup id st) as [x|]; split.
    - intros [= <-]. auto.
    - intros [_ [= <-]]. reflexivity.
    - discriminate.
    - intros [_ ?]. discriminate. }
  split; [exact H|]. split; [|split; [|split]].
  - intros p Hp. apply H in Hp as [_ Hp]. by apply lookup_Some.
  - split.
    + intros [p Hp]. apply H in Hp as [Hid Hp]. split; [assumption|].
      destruct (in_dec string_dec (Product.canonical id) (identities st))
        as [Hin|Hin]; [assumption|].
      apply lookup_None in Hin. congruence.
    + intros [Hid Hin].
      destruct (Product.lookup id st) as [p|] eqn:Hp.
      * exists p. by apply H.
      * apply lookup_None in Hp. tauto.
  - intros id'. apply get_by_id_same.
  - rewrite get_by_id_cases.
    destruct (Product.isValidObjectId id); [|by right].
    destruct (Product.lookup id st); [by left | by right].
Qed.

Example get_by_id_upper_case :
  Routes.get_by_id Sample.shop "507F1F77BCF86CD799439011"
  = mkResponse 200 (Document Sample.phone).
Proof. reflexivity. Qed.

(** X6.  After an accepted update of a stored product, reading its identity
    returns the product that the update answered; the products of the other
    identities read as before and the store holds the same identities.
    Two identities are other when they differ as ObjectIds, that is in
    their canonical spelling. *)
Theorem put_then_get (env : option string) (now : Z) (st : Product.store)
  (req : Routes.request) (p : Product.t) :
  presented_key (Routes.req_headers req) = Some (configured_key env) →
  body_ok (Routes.req_body req) →
  Product.isValidObjectId (Routes.req_id req) = true →
  Product.lookup (Routes.req_id req) st = Some p →
  ∃ p' st',
    Routes.put env now st req
    = (mkResponse 200 (MessageWithProduct "Product updated successfully" p'),
       st')
    ∧ p' = updated now (Routes.req_body req) p
    ∧ Routes.get_by_id st' (Routes.req_id req) = mkResponse 200 (Document p')
    ∧ (∀ id, Product.canonical id ≠ Product.canonical (Routes.req_id req) →
             Routes.get_by_id st' id = Routes.get_by_id st id)
    ∧ ids st' = ids st.
Proof.
  intros Hkey Hok Hid Hp. apply authenticate_None in Hkey.
  rewrite (put_authorized _ _ _ _ Hkey Hok), Hid, Hp. simpl.
  destruct (lookup_Some _ _ _ Hp) as [Hpid _].
  set (p' := updated now (Routes.req_body req) p).
  assert (Hp' : Product.canonical (Product._id p')
                = Product.canonical (Routes.req_id req)) by exact Hpid.
  exists p', (Product.replace p' st). split; [reflexivity|].
  split; [reflexivity|]. split; [|split].
  - rewrite get_by_id_cases, Hid.
    rewrite <- (lookup_same _ _ _ Hp').
    rewrite (lookup_replace p' p); [reflexivity|].
    by rewrite (lookup_same _ _ _ Hp').
  - intros id Hne. rewrite !get_by_id_cases.
    rewrite lookup_replace_ne; [reflexivity|]. by rewrite Hp'.
  - by apply (ids_replace (Routes.req_id req) p' p).
Qed.

Lemma put_then_get_witness :
  ∃ p' st',
    Routes.put None 7 Sample.shop
      (Routes.mkRequest Sample.api_key (Sample.id 3) Sample.full_body)
    = (mkResponse 200 (MessageWithProduct "Product updated successfully" p'),
       st')
    ∧ p' = updated 7 Sample.full_body Sample.kettle
    ∧ Routes.get_by_id st' (Sample.id 3) = mkResponse 200 (Document p')
    ∧ (∀ id, Product.canonical id ≠ Product.canonical (Sample.id 3) →
             Routes.get_by_id st' id = Routes.get_by_id Sample.shop id)
    ∧ ids st' = ids Sample.shop.
Proof.
  apply (put_then_get None 7 Sample.shop
           (Routes.mkRequest Sample.api_key (Sample.id 3) Sample.full_body)
           Sample.kettle); [reflexivity| |reflexivity|reflexivity].
  unfold body_ok, text_ok. simpl.
  split; [eexists; split; [reflexivity | discriminate]|].
  split; [eexists; split; [reflexivity | discriminate]|].
  split; [eexists; split; [reflexivity | discriminate]|].
  split; [eexists; split; [reflexivity | discriminate]|]. by left.
Defined.

(** X7.  In a store whose products differ in identity, an authorized delete
    of a stored product answers 200 with that product and takes it out of
    the store: one product less, the identity is then unknown to a read and
    to a second delete (both 404), and the other identities read as before.
    Identities are compared as ObjectIds, in their canonical spelling. *)
Theorem delete_then_gone (env : option string) (st : Product.store)
  (req : Routes.request) (p : Product.t) :
  List.NoDup (identities st) →
  presented_key (Routes.req_headers req) = Some (configured_key env) →
  Product.isValidObjectId (Routes.req_id req) = true →
  Product.lookup (Routes.req_id req) st = Some p →
  ∃ st',
    Routes.delete env st req
    = (mkResponse 200 (MessageWithProduct "Product deleted successfully" p),
       st')
    ∧ List.length st = S (List.length st')
    ∧ Routes.get_by_id st' (Routes.req_id req)
      = mkResponse 404 (Message "Product not found")
    ∧ Routes.delete env st' req
      = (mkResponse 404 (Message "Product not found"), st')
    ∧ (∀ id, Product.canonical id ≠ Product.canonical (Routes.req_id req) →
             Routes.get_by_id st' id = Routes.get_by_id st id).
Proof.
  intros Hnd Hkey Hid Hp. apply authenticate_None in Hkey.
  rewrite (delete_authorized _ _ _ Hkey), Hid, Hp.
  exists (Product.remove (Routes.req_id req) st). split; [reflexivity|].
  assert (Hgone : Product.lookup (Routes.req_id req)
                    (Product.remove (Routes.req_id req) st) = None).
  { apply lookup_None. by apply identities_remove. }
  split; [by eapply length_remove|]. split; [|split].
  - by rewrite get_by_id_cases, Hid, Hgone.
  - by rewrite (delete_authorized _ _ _ Hkey), Hid, Hgone.
  - intros id Hne. rewrite !get_by_id_cases.
    by rewrite lookup_remove_ne.
Qed.

Lemma delete_then_gone_witness :
  ∃ st',
    Routes.delete None Sample.shop
      (Routes.mkRequest Sample.api_key Sample.phone_id Sample.partial_body)
    = (mkResponse 200
         (MessageWithProduct "Product deleted successfully" Sample.phone),
       st')
    ∧ List.length Sample.shop = S (List.length st')
    ∧ Routes.get_by_id st' Sample.phone_id
      = mkResponse 404 (Message "Product not found")
    ∧ Routes.delete None st'
        (Routes.mkRequest Sample.api_key Sample.phone_id Sample.partial_body)
      = (mkResponse 404 (Message "Product not found"), st')
    ∧ (∀ id, Product.canonical id ≠ Product.canonical Sample.phone_id →
             Routes.get_by_id st' id = Routes.get_by_id Sample.shop id).
Proof.
  apply (delete_then_gone None Sample.shop
           (Routes.mkRequest Sample.api_key Sample.phone_id
              Sample.partial_body) Sample.phone);
    [|reflexivity..].
  repeat (apply List.NoDup_cons; [simpl; intuition discriminate|]).
  apply List.NoDup_nil.
Defined.

(** X8.  An authorized update or delete of a well-formed identity that no
    product of the store has (as an ObjectId: in no spelling) answers 404
    and leaves the store as it is. *)
Theorem unknown_id_not_found (env : option string) (now : Z)
  (st : Product.store) (req : Routes.request) :
  presented_key (Routes.req_headers req) = Some (configured_key env) →
  Product.isValidObjectId (Routes.req_id req) = true →
  ¬ In (Product.canonical (Routes.req_id req)) (identities st) →
  Routes.delete env st req = (mkResponse 404 (Message "Product not found"), st)
  ∧ (body_ok (Routes.req_body req) →
     Routes.put env now st req
     = (mkResponse 404 (Message "Product not found"), st)).
Proof.
  intros Hkey Hid Hnot. apply authenticate_None in Hkey.
  apply lookup_None in Hnot. split.
  - by rewrite (delete_authorized _ _ _ Hkey), Hid, Hnot.
  - intros Hok. by rewrite (put_authorized _ _ _ _ Hkey Hok), Hid, Hnot.
Qed.

Lemma unknown_id_not_found_witness :
  Routes.delete None Sample.shop
    (Routes.mkRequest Sample.api_key (Sample.id 9) Sample.full_body)
  = (mkResponse 404 (Message "Product not found"), Sample.shop).
Proof.
  assert (Hnot : ¬ In (Product.canonical (Sample.id 9))
                   (identities Sample.shop)).
  { simpl. intuition discriminate. }
  exact (proj1 (unknown_id_not_found None 7 Sample.shop
                  (Routes.mkRequest Sample.api_key (Sample.id 9)
                     Sample.full_body) eq_refl eq_refl Hnot)).
Defined.

(** X9.  An authorized creation with an accepted body and a new identity
    (an ObjectId in its canonical spelling that no product of the store
    has) answers 201 with the created product, appended to the store: its
    texts are the trimmed texts of the body, [inStock] is the flag of the
    body or [true] when the body has none, both time stamps are the time of
    the call, reading the identity in any spelling returns the product,
    and the other identities read as before. *)
Theorem post_then_get (env : option string) (now : Z) (fresh : string)
  (st : Product.store) (h : headers) (b : body) :
  presented_key h = Some (configured_key env) →
  body_ok b →
  Product.isValidObjectId fresh = true →
  Product.canonical fresh = fresh →
  ¬ In fresh (identities st) →
  let p := created now fresh b in
  Creation.post env now fresh st h b
  = (mkResponse 201 (MessageWithProduct "Product created successfully" p),
     (st ++ [p])%list)
  ∧ (b_inStock b = None → Product.inStock p = true)
  ∧ (∀ id, Product.canonical id = fresh →
           Routes.get_by_id (st ++ [p])%list id = mkResponse 200 (Document p))
  ∧ (∀ id, Product.canonical id ≠ fresh →
           Routes.get_by_id (st ++ [p])%list id = Routes.get_by_id st id).
Proof.
  intros Hkey Hok Hid Hcan Hnot p. apply authenticate_None in Hkey.
  rewrite <- Hcan in Hnot. apply lookup_None in Hnot.
  rewrite (post_authorized _ _ _ _ _ _ Hkey Hok), Hnot.
  split; [reflexivity|]. split; [|split].
  - intros Hs. unfold p, created, inStock_after. simpl. by rewrite Hs.
  - intros id Hsame. rewrite <- Hcan in Hsame.
    rewrite (get_by_id_same _ _ _ Hsame).
    rewrite get_by_id_cases, Hid, lookup_snoc, Hnot. simpl.
    unfold Product.same_id. by rewrite String.eqb_refl.
  - intros id Hne. rewrite !get_by_id_cases, lookup_snoc.
    destruct (Product.lookup id st); [reflexivity|]. simpl.
    assert (Hf : Product.same_id fresh id = false).
    { apply same_id_false. congruence. }
    by rewrite Hf.
Qed.

Lemma post_then_get_witness :
  Creation.post None 7 (Sample.id 9) Sample.shop Sample.api_key
    Sample.full_body
  = (mkResponse 201
       (MessageWithProduct "Product created successfully"
          (created 7 (Sample.id 9) Sample.full_body)),
     (Sample.shop ++ [created 7 (Sample.id 9) Sample.full_body])%list)
  ∧ Product.inStock (created 7 (Sample.id 9) Sample.full_body) = true.
Proof.
  assert (Hok : body_ok Sample.full_body).
  { unfold body_ok, text_ok. simpl.
    split; [eexists; split; [reflexivity | discriminate]|].
    split; [eexists; split; [reflexivity | discriminate]|].
    split; [eexists; split; [reflexivity | discriminate]|].
    split; [eexists; split; [reflexivity | discriminate]|]. by left. }
  assert (Hnot : ¬ In (Sample.id 9) (identities Sample.shop)).
  { simpl. intuition discriminate. }
  destruct (post_then_get None 7 (Sample.id 9) Sample.shop Sample.api_key
              Sample.full_body eq_refl Hok eq_refl eq_refl Hnot)
    as (H1 & H2 & _).
  split; [exact H1 | apply H2; reflexivity].
Defined.

(** X10.  No request to the update, delete or creation route makes two
    products share an identity: a store without repeated identities stays
    one. *)
Theorem writes_keep_ids_distinct (env : option string) (now : Z)
  (fresh : string) (st : Product.store) (req : Routes.request) :
  List.NoDup (ids st) →
  List.NoDup (ids (Routes.put env now st req).2)
  ∧ List.NoDup (ids (Routes.delete env st req).2)
  ∧ List.NoDup (ids (Creation.post env now fresh st (Routes.req_headers req)
                       (Routes.req_body req)).2).
Proof.
  intros Hnd. split; [|split].
  - destruct (put_store env now st req) as [-> | (p & _ & Hp & ->)];
      [assumption|].
    by rewrite (ids_replace _ (updated now (Routes.req_body req) p) _ _ Hp
                  eq_refl).
  - destruct (delete_store env st req) as [-> | ->]; [assumption|].
    by apply NoDup_remove.
  - destruct (post_store env now fresh st (Routes.req_headers req)
                (Routes.req_body req)) as [-> | (_ & Hf & ->)]; [assumption|].
    rewrite ids_snoc. apply lookup_None_ids in Hf.
    apply List.NoDup_app; [assumption | |].
    + apply List.NoDup_cons; [simpl; tauto | apply List.NoDup_nil].
    + intros x Hx [<- | []]. by apply Hf.
Qed.

Lemma writes_keep_ids_distinct_witness :
  List.NoDup (ids (Routes.delete None Sample.shop
                     (Routes.mkRequest Sample.api_key Sample.phone_id
                        Sample.full_body)).2).
Proof.
  apply (writes_keep_ids_distinct None 7 (Sample.id 9) Sample.shop
           (Routes.mkRequest Sample.api_key Sample.phone_id
              Sample.full_body)).
  repeat (apply List.NoDup_cons; [simpl; intuition discriminate|]).
  apply List.NoDup_nil.
Defined.

(** X11.  No request to the update, delete or creation route spoils the
    form of the stored products: when every product has trimmed texts that
    are not empty and a price that is not negative, the same holds after
    the request. *)
Theorem writes_keep_products_well_formed (env : option string) (now : Z)
  (fresh : string) (st : Product.store) (req : Routes.request) :
  Forall well_formed st →
  Forall well_formed (Routes.put env now st req).2
  ∧ Forall well_formed (Routes.delete env st req).2
  ∧ Forall well_formed
      (Creation.post env now fresh st (Routes.req_headers req)
         (Routes.req_body req)).2.
Proof.
  intros Hwf. split; [|split].
  - destruct (put_store env now st req) as [-> | (p & Hok & _ & ->)];
      [assumption|]. apply Forall_replace; [|assumption].
    by apply updated_well_formed.
  - destruct (delete_store env st req) as [-> | ->]; [assumption|].
    by apply Forall_remove.
  - destruct (post_store env now fresh st (Routes.req_headers req)
                (Routes.req_body req)) as [-> | (Hok & _ & ->)]; [assumption|].
    apply Forall_app. split; [assumption|]. constructor; [|constructor].
    by apply created_well_formed.
Qed.

Lemma writes_keep_products_well_formed_witness :
  Forall well_formed
    (Routes.put None 7 Sample.shop
       (Routes.mkRequest Sample.api_key (Sample.id 3) Sample.full_body)).2.
Proof.
  apply (writes_keep_products_well_formed None 7 (Sample.id 9) Sample.shop
           (Routes.mkRequest Sample.api_key (Sample.id 3) Sample.full_body)).
  repeat constructor; simpl; try discriminate; unfold Qle; simpl; lia.
Defined.

(** ** The listing route *)

Section ListingFacts.

Lemma of_Z_inj (a b : Z) : JS.of_Z a = JS.of_Z b → a = b.
Proof. by intros [= ->]. Qed.

Lemma parseInt_cases (d : Z) (raw : option string) :
  d = 1 ∨ d = 10 →
  JS.parseInt (JS.with_default d raw) = JS.NaN
  ∨ JS.parseInt (JS.with_default d raw) = JS.PosInf
  ∨ JS.parseInt (JS.with_default d raw) = JS.NegInf
  ∨ ∃ n, JS.parseInt (JS.with_default d raw) = JS.of_Z n.
Proof.
  intros Hd. destruct raw as [s|]; simpl.
  - apply parseInt_string_cases.
  - right; right; right. exists d. by destruct Hd as [-> | ->].
Qed.

Lemma listing_limitNum_range (limit : option string) :
  Listing.limitNum limit = JS.NaN
  ∨ ∃ n, 1 <= n <= 100 ∧ Listing.limitNum limit = JS.of_Z n.
Proof.
  unfold Listing.limitNum.
  destruct (parseInt_cases 10 limit (or_intror eq_refl))
    as [-> | [-> | [-> | [n ->]]]]; [by left | right..].
  - by exists 100.
  - by exists 1.
  - exists (Z.max 1 (Z.min n 100)). split; [lia|].
    by rewrite Math_min_of_Z, Math_max_of_Z.
Qed.

(** [Math.max(1, parseInt(v))]: [NaN], [Infinity] or an integer from 1. *)
Lemma max_one_parseInt_range (d : Z) (raw : option string) :
  d = 1 ∨ d = 10 →
  let m := JS.Math_max (JS.of_Z 1) (JS.parseInt (JS.with_default d raw)) in
  m = JS.NaN ∨ m = JS.PosInf ∨ ∃ n, 1 <= n ∧ m = JS.of_Z n.
Proof.
  intros Hd m. unfold m.
  destruct (parseInt_cases d raw Hd) as [-> | [-> | [-> | [n ->]]]].
  - by left.
  - by right; left.
  - right; right. by exists 1.
  - right; right. exists (Z.max 1 n). split; [lia|]. apply Math_max_of_Z.
Qed.

Lemma listing_pageNum_range (page : option string) :
  Listing.pageNum page = JS.NaN ∨ Listing.pageNum page = JS.PosInf
  ∨ ∃ n, 1 <= n ∧ Listing.pageNum page = JS.of_Z n.
Proof. apply (max_one_parseInt_range 1 page). by left. Qed.

Lemma search_limitNum_range (limit : option string) :
  Search.limitNum limit = JS.NaN ∨ Search.limitNum limit = JS.PosInf
  ∨ ∃ n, 1 <= n ∧ Search.limitNum limit = JS.of_Z n.
Proof. apply (max_one_parseInt_range 10 limit). by right. Qed.

(** A page or limit that is an integer is at least 1. *)
Lemma listing_limitNum_positive (limit : option string) (l : Z) :
  Listing.limitNum limit = JS.of_Z l → 1 <= l <= 100.
Proof.
  intros H. destruct (listing_limitNum_range limit) as [E | (n & Hn & E)];
    rewrite E in H; [discriminate|]. apply of_Z_inj in H. lia.
Qed.

Lemma listing_pageNum_positive (page : option string) (p : Z) :
  Listing.pageNum page = JS.of_Z p → 1 <= p.
Proof.
  intros H.
  destruct (listing_pageNum_range page) as [E | [E | (n & Hn & E)]];
    rewrite E in H; [discriminate..|]. apply of_Z_inj in H. lia.
Qed.

Lemma search_limitNum_positive (limit : option string) (l : Z) :
  Search.limitNum limit = JS.of_Z l → 1 <= l.
Proof.
  intros H.
  destruct (search_limitNum_range limit) as [E | [E | (n & Hn & E)]];
    rewrite E in H; [discriminate..|]. apply of_Z_inj in H. lia.
Qed.

Lemma search_pageNum_positive (page : option string) (p : Z) :
  Search.pageNum page = JS.of_Z p → 1 <= p.
Proof. apply listing_pageNum_positive. Qed.

(** The number of pages: the least [k] with [total <= k * limit]. *)
Lemma ceil_pages (t l : Z) :
  0 < l →
  ∃ k, JS.Math_ceil (JS.div (JS.of_Z t) (JS.of_Z l)) = JS.of_Z k
       ∧ (k - 1) * l < t <= k * l.
Proof.
  intros Hl. destruct l as [|l|l]; try lia.
  exists (Qceiling (inject_Z t / inject_Z (Z.pos l))). split; [reflexivity|].
  pose proof (Qle_ceiling (inject_Z t / inject_Z (Z.pos l))) as H1.
  pose proof (Qceiling_lt (inject_Z t / inject_Z (Z.pos l))) as H2.
  set (k := Qceiling _) in *. clearbody k.
  unfold Qle, Qlt, Qdiv, Qmult, Qinv, inject_Z in H1, H2. simpl in H1, H2.
  rewrite ?Z.mul_1_r, ?Pos.mul_1_l in H1, H2. lia.
Qed.

Lemma more_pages (p k l t : Z) :
  0 < l → (k - 1) * l < t <= k * l → (p <? k) = (p * l <? t).
Proof.
  intros Hl Hk. destruct (Z.ltb_spec p k), (Z.ltb_spec (p * l) t);
    try reflexivity; nia.
Qed.

End ListingFacts.

(** X12.  The limit of a listing is never above 100 nor below 1 and its
    page never below 1.  The limit is an integer from 1 to 100; the page is
    an integer from 1, or [Infinity] when (and only when) [parseInt] reads
    digits whose value is beyond every binary64 number.  Each is [NaN]
    when (and only when) the parameter is a text that [parseInt] reads no
    integer from. *)
Theorem listing_page_and_limit_range (page limit : option string) :
  (Listing.limitNum limit = JS.NaN
   ∨ ∃ n, 1 <= n <= 100 ∧ Listing.limitNum limit = JS.of_Z n)
  ∧ (Listing.pageNum page = JS.NaN ∨ Listing.pageNum page = JS.PosInf
     ∨ ∃ n, 1 <= n ∧ Listing.pageNum page = JS.of_Z n)
  ∧ (Listing.limitNum limit = JS.NaN
     ↔ ∃ s, limit = Some s ∧ JS.parseInt_string s = JS.NaN)
  ∧ (Listing.pageNum page = JS.NaN
     ↔ ∃ s, page = Some s ∧ JS.parseInt_string s = JS.NaN)
  ∧ (Listing.pageNum page = JS.PosInf
     ↔ ∃ s, page = Some s ∧ JS.parseInt_string s = JS.PosInf).
Proof.
  split; [apply listing_limitNum_range|].
  split; [apply listing_pageNum_range|]. split; [|split].
  - destruct limit as [s|]; [|split; [discriminate | by intros (? & ? & _)]].
    unfold Listing.limitNum.
    change (JS.parseInt (JS.with_default 10 (Some s)))
      with (JS.parseInt_string s).
    destruct (parseInt_string_cases s) as [E | [E | [E | [n E]]]]; rewrite E.
    + split; [eauto | reflexivity].
    + split; [discriminate|]. intros (s' & [= <-] & H). rewrite E in H. discriminate H.
    + split; [discriminate|]. intros (s' & [= <-] & H). rewrite E in H. discriminate H.
    + rewrite Math_min_of_Z, Math_max_of_Z.
      split; [discriminate|]. intros (s' & [= <-] & H). rewrite E in H. discriminate H.
  - destruct page as [s|]; [|split; [discriminate | by intros (? & ? & _)]].
    unfold Listing.pageNum.
    change (JS.parseInt (JS.with_default 1 (Some s)))
      with (JS.parseInt_string s).
    destruct (parseInt_string_cases s) as [E | [E | [E | [n E]]]]; rewrite E.
    + split; [eauto | reflexivity].
    + split; [discriminate|]. intros (s' & [= <-] & H). rewrite E in H. discriminate H.
    + split; [discriminate|]. intros (s' & [= <-] & H). rewrite E in H. discriminate H.
    + rewrite Math_max_of_Z.
      split; [discriminate|]. intros (s' & [= <-] & H). rewrite E in H. discriminate H.
  - destruct page as [s|]; [|split; [discriminate | by intros (? & ? & _)]].
    unfold Listing.pageNum.
    change (JS.parseInt (JS.with_default 1 (Some s)))
      with (JS.parseInt_string s).
    destruct (parseInt_string_cases s) as [E | [E | [E | [n E]]]]; rewrite E.
    + split; [discriminate|]. intros (s' & [= <-] & H). rewrite E in H. discriminate H.
    + split; [eauto | reflexivity].
    + split; [discriminate|]. intros (s' & [= <-] & H). rewrite E in H. discriminate H.
    + rewrite Math_max_of_Z.
      split; [discriminate|]. intros (s' & [= <-] & H). rewrite E in H. discriminate H.
Qed.

Example listing_page_rounded :
  Listing.pageNum (Some "9007199254740993") = JS.of_Z 9007199254740992.
Proof. vm_compute. reflexivity. Qed.

Example listing_page_overflow :
  Listing.pageNum (Some (String "1" (Sample.zeros 309))) = JS.PosInf
  ∧ Listing.limitNum (Some (String "1" (Sample.zeros 309))) = JS.of_Z 100.
Proof. split; vm_compute; reflexivity. Qed.

(** X13.  The stock filter of a listing compares the parameter with the
    text [true]: that text asks for the products in stock, and every other
    supplied text, [TRUE] or [1] included, asks for the products out of
    stock; without the parameter there is no stock filter. *)
Theorem inStock_filter_literal (inStock : option string) :
  (inStock = None → Listing.inStock_condition inStock = None)
  ∧ (∀ s, inStock = Some s →
       ∃ c, Listing.inStock_condition inStock = Some c
            ∧ ∀ p, Query.matches p c = true
                   ↔ (Product.inStock p = true ↔ s = "true")).
Proof.
  split; [by intros ->|]. intros s ->. eexists. split; [reflexivity|].
  intros p. simpl. rewrite Bool.eqb_true_iff.
  destruct (String.eqb_spec s "true") as [E|E];
    destruct (Product.inStock p); intuition congruence.
Qed.

Lemma inStock_filter_literal_witness :
  ∃ c, Listing.inStock_condition (Some "TRUE") = Some c
       ∧ ∀ p, Query.matches p c = true
              ↔ (Product.inStock p = true ↔ "TRUE" = "true").
Proof.
  exact (proj2 (inStock_filter_literal (Some "TRUE")) "TRUE" eq_refl).
Defined.

Section ListingSelection.

Lemma selects_app (f g : Query.filter) (p : Product.t) :
  Query.selects (f ++ g)%list p = Query.selects f p && Query.selects g p.
Proof. apply forallb_app. Qed.

Lemma trim_empty_string : JS.trim "" = "".
Proof. reflexivity. Qed.

Lemma category_condition_asks (category : option string) (p : Product.t) :
  (∀ c, category = Some c → plain (JS.trim c) = true) →
  ∃ c, Listing.category_condition category = Some c
       ∧ (Query.selects (option_list c) p = true ↔ category_asks category p).
Proof.
  intros Hplain. destruct category as [c|]; simpl; [|by exists None].
  destruct (JS.isEmpty c) eqn:Ec; simpl.
  { exists None. split; [reflexivity|]. simpl. destruct c; [|discriminate].
    split; auto. }
  destruct (JS.isEmpty (JS.trim c)) eqn:Et.
  { exists None. split; [reflexivity|]. simpl.
    destruct (JS.trim c); [|discriminate]. split; auto. }
  destruct (category_filter_exact_on_plain_text c p Et (Hplain c eq_refl))
    as (cond & Hc & Hm).
  unfold Listing.category_condition in Hc. rewrite Ec, Et in Hc. simpl in Hc.
  rewrite Hc. exists (Some cond). split; [reflexivity|]. simpl.
  rewrite andb_true_r, Hm. apply isEmpty_false in Et. split; [auto|].
  by intros [H|H].
Qed.

Lemma inStock_condition_asks (inStock : option string) (p : Product.t) :
  Query.selects (option_list (Listing.inStock_condition inStock)) p = true
  ↔ inStock_asks inStock p.
Proof.
  destruct inStock as [s|]; simpl; [|tauto].
  rewrite andb_true_r, Bool.eqb_true_iff.
  destruct (String.eqb_spec s "true") as [E|E];
    destruct (Product.inStock p); intuition congruence.
Qed.

Lemma add_one_of_Z (p : Z) : JS.add (JS.of_Z p) (JS.of_Z 1) = JS.of_Z (p + 1).
Proof.
  unfold JS.of_Z, JS.add, inject_Z, Qplus; cbn. f_equal. f_equal. lia.
Qed.

Lemma sub_one_of_Z (p : Z) : JS.sub (JS.of_Z p) (JS.of_Z 1) = JS.of_Z (p - 1).
Proof.
  unfold JS.of_Z, JS.sub, JS.neg, JS.add, inject_Z, Qplus, Qopp; cbn.
  f_equal. f_equal. lia.
Qed.

End ListingSelection.

(** X14.  For a category without pattern characters, the filter of a
    listing selects exactly the products that meet every parameter given:
    the category equal to the trimmed parameter up to letter case (a blank
    parameter asks nothing), the stock flag as [inStock] asks, and the
    price within the bounds of [minPrice] and [maxPrice]. *)
Theorem listing_filter_selects
  (category inStock minPrice maxPrice : option string) :
  (∀ c, category = Some c → plain (JS.trim c) = true) →
  ∃ f, Listing.filter category inStock minPrice maxPrice = Some f
       ∧ ∀ p, Query.selects f p = true
              ↔ category_asks category p ∧ inStock_asks inStock p
                ∧ price_asks minPrice maxPrice p.
Proof.
  intros Hplain. unfold Listing.filter.
  destruct (category_condition_asks category Sample.phone Hplain)
    as (c & Hc & _).
  rewrite Hc. simpl. eexists. split; [reflexivity|]. intros p.
  destruct (category_condition_asks category p Hplain) as (c' & Hc' & Hm).
  assert (c' = c) as -> by congruence.
  rewrite !selects_app, !andb_true_iff, Hm, inStock_condition_asks.
  rewrite price_condition_selects, andb_true_iff, !bound_ok_spec.
  reflexivity.
Qed.

Lemma listing_filter_selects_witness :
  ∃ f, Listing.filter (Some " Electronics ") (Some "true") None (Some "1000")
       = Some f
       ∧ ∀ p, Query.selects f p = true
              ↔ category_asks (Some " Electronics ") p
                ∧ inStock_asks (Some "true") p
                ∧ price_asks None (Some "1000") p.
Proof.
  apply (listing_filter_selects (Some " Electronics ") (Some "true") None
           (Some "1000")).
  intros c [= <-]. reflexivity.
Defined.

(** X15.  In the [pagination] block of a listing with a numeric page [p]
    and limit [l], [totalPages] is the least number of pages of [l] that
    hold all matching documents; [hasNext] tells that documents remain
    after page [p] and [nextPage] is then [p + 1], else [null]; [hasPrev]
    tells that [p] is past the first page and [prevPage] is then [p - 1];
    the query skips [(p - 1) * l] documents.  This is for the pages and
    totals on which the arithmetic of the route is exact: [p * l] below
    2^53 and fewer than 2^47 matching documents. *)
Theorem listing_pagination_navigation (page limit : option string)
  (total : nat) (p l : Z) :
  Listing.pageNum page = JS.of_Z p →
  Listing.limitNum limit = JS.of_Z l →
  p * l < 2 ^ 53 →
  Z.of_nat total < 2 ^ 47 →
  let pg := ListingPage.pagination page limit total in
  1 <= p ∧ 1 <= l <= 100
  ∧ (∃ k, ListingPage.totalPages pg = JS.of_Z k
          ∧ (k - 1) * l < Z.of_nat total <= k * l)
  ∧ (ListingPage.hasNext pg = true ↔ p * l < Z.of_nat total)
  ∧ ListingPage.nextPage pg
    = (if ListingPage.hasNext pg then Some (JS.of_Z (p + 1)) else None)
  ∧ (ListingPage.hasPrev pg = true ↔ 1 < p)
  ∧ ListingPage.prevPage pg
    = (if ListingPage.hasPrev pg then Some (JS.of_Z (p - 1)) else None)
  ∧ Listing.skip page limit = JS.of_Z ((p - 1) * l).
Proof.
  intros Hp Hl _ _ pg.
  pose proof (listing_pageNum_positive _ _ Hp) as Hp1.
  pose proof (listing_limitNum_positive _ _ Hl) as Hl1.
  split; [assumption|]. split; [assumption|].
  destruct (ceil_pages (Z.of_nat total) l ltac:(lia)) as (k & Hk & Hbounds).
  unfold pg, ListingPage.pagination.
  cbn [ListingPage.totalPages ListingPage.hasNext ListingPage.nextPage
       ListingPage.hasPrev ListingPage.prevPage].
  rewrite Hp, Hl, Hk.
  rewrite !lt_of_Z, (more_pages p k l _ ltac:(lia) Hbounds).
  split; [by exists k|]. split; [apply Z.ltb_lt|].
  split; [by rewrite add_one_of_Z|]. split; [apply Z.ltb_lt|].
  split; [by rewrite sub_one_of_Z|].
  unfold Listing.skip. rewrite Hp, Hl. apply sub_mul_of_Z.
Qed.

Lemma listing_pagination_navigation_witness :
  ListingPage.hasNext (ListingPage.pagination (Some "2") (Some "5") 11) = true
  ↔ 2 * 5 < Z.of_nat 11.
Proof.
  pose proof (listing_pagination_navigation (Some "2") (Some "5") 11 2 5
                eq_refl eq_refl eq_refl eq_refl) as H.
  exact (proj1 (proj2 (proj2 (proj2 H)))).
Defined.

(** ** The search route *)

Section SearchFacts.

Lemma as_count_of_Z (z : Z) :
  Query.as_count (JS.of_Z z) = if 0 <=? z then Some (Z.to_nat z) else None.
Proof.
  unfold Query.as_count, JS.of_Z. rewrite Qred_inject_Z.
  change 0%Q with (inject_Z 0). rewrite Qle_bool_inject_Z.
  by destruct (0 <=? z).
Qed.

Lemma as_count_Some (n : JS.number) (k : nat) :
  Query.as_count n = Some k → ∃ q, n = JS.Num q.
Proof. destruct n; try discriminate. eauto. Qed.

#[local] Instance name_le_total : Total Query.name_le.
Proof. intros p q. apply String.leb_total. Qed.

Lemma sort_by_name_sorted (l : list Product.t) :
  Sorted Query.name_le (Query.sort_by_name l).
Proof. apply Sorted_merge_sort, _. Qed.

Lemma HdRel_sublist {A} (R : relation A) (x : A) (l : list A) :
  Sorted R l → HdRel R x l → ∀ n, HdRel R x (take n l).
Proof. intros _ [|y l' Hy] [|n]; simpl; by constructor. Qed.

Lemma Sorted_take {A} (R : relation A) (l : list A) (n : nat) :
  Sorted R l → Sorted R (take n l).
Proof.
  intros H. revert n. induction H as [|x l Hl IH Hx]; intros [|n]; simpl;
    try constructor; [apply IH|]. by apply HdRel_sublist.
Qed.

Lemma Sorted_drop {A} (R : relation A) (l : list A) (n : nat) :
  Sorted R l → Sorted R (drop n l).
Proof.
  intros H. revert n. induction H as [|x l Hl IH Hx]; intros [|n]; simpl;
    try constructor; try assumption. apply IH.
Qed.

Lemma find_search_filter (st : Product.store) (r : Query.regexp) :
  let f := [Query.COr [(Query.Name, r); (Query.Description, r);
                       (Query.Category, r)]] in
  Query.find st f = Ok (List.filter (Query.selects f) st)
  ∧ Query.countDocuments st f
    = Ok (List.length (List.filter (Query.selects f) st)).
Proof. split; reflexivity. Qed.

(** The page that the window cuts out of a list. *)
Lemma window_page {A} (s n : JS.number) (l page : list A) :
  Query.window s n l = Some page →
  ∃ s' n', Query.as_count s = Some s' ∧ Query.as_count n = Some n'
           ∧ page = match n' with
                    | O => drop s' l
                    | _ => take n' (drop s' l)
                    end.
Proof.
  unfold Query.window. destruct (Query.as_count s) as [s'|]; [|discriminate].
  destruct (Query.as_count n) as [n'|]; [|discriminate]. simpl.
  intros [= <-]. eauto.
Qed.

Lemma window_subset {A} (s n : JS.number) (l page : list A) :
  Query.window s n l = Some page →
  page ⊆ l ∧ (List.length page <= List.length l)%nat.
Proof.
  intros H. apply window_page in H as (s' & n' & _ & _ & ->).
  destruct n'; split.
  - apply subseteq_drop.
  - rewrite length_drop. lia.
  - etrans; [apply subseteq_take | apply subseteq_drop].
  - rewrite length_take, length_drop. lia.
Qed.

Lemma window_sorted {A} (R : relation A) (s n : JS.number) (l page : list A) :
  Query.window s n l = Some page → Sorted R l → Sorted R page.
Proof.
  intros H Hs. apply window_page in H as (s' & n' & _ & _ & ->).
  destruct n'; [by apply Sorted_drop|]. by apply Sorted_take, Sorted_drop.
Qed.

(** What a successful search answer is made of. *)
Lemma search_handler_ok (st : Product.store) (q page limit : option string)
  (info : search_info) (results : nat) (products : list Product.t) :
  Search.handler st q page limit
  = Some (mkResponse 200 (SearchResults info results products)) →
  ∃ f, Search.searchFilter (JS.trim (default "" q)) = Some f
       ∧ Query.window (Search.skip page limit) (Search.limitNum limit)
           (Query.sort_by_name (List.filter (Query.selects f) st))
         = Some products
       ∧ results = List.length products
       ∧ info
         = {| query := JS.trim (default "" q);
              totalResults := List.length (List.filter (Query.selects f) st);
              currentPage := Search.pageNum page;
              totalPages :=
                JS.Math_ceil
                  (JS.div
                     (JS.of_Z
                        (Z.of_nat
                           (List.length (List.filter (Query.selects f) st))))
                     (Search.limitNum limit));
              hasNext :=
                JS.lt (Search.pageNum page)
                  (JS.Math_ceil
                     (JS.div
                        (JS.of_Z
                           (Z.of_nat
                              (List.length
                                 (List.filter (Query.selects f) st))))
                        (Search.limitNum limit)));
              hasPrev := JS.lt (JS.of_Z 1) (Search.pageNum page) |}.
Proof.
  unfold Search.handler. destruct (Search.blank q); [discriminate|].
  unfold Search.searchFilter.
  destruct (RegExp.compile (JS.trim (default "" q))) as [pat|];
    [|discriminate]. simpl.
  destruct (Query.window _ _ _) as [page'|] eqn:Hw; [|discriminate]. simpl.
  intros [= <- <- <-]. eexists. split; [reflexivity|].
  split; [exact Hw|]. split; reflexivity.
Qed.

(** The answer to a search with a term, a numeric page [p] and a numeric
    limit [l]: the products of page [p] in pages of [l]. *)
Lemma search_handler_numeric (st : Product.store) (q page limit : option string)
  (f : Query.filter) (p l : Z) :
  Search.blank q = false →
  Search.searchFilter (JS.trim (default "" q)) = Some f →
  Search.pageNum page = JS.of_Z p →
  Search.limitNum limit = JS.of_Z l →
  let found := Query.sort_by_name (List.filter (Query.selects f) st) in
  let products := take (Z.to_nat l) (drop (Z.to_nat ((p - 1) * l)) found) in
  (∃ info, Search.handler st q page limit
           = Some (mkResponse 200
                     (SearchResults info (List.length products) products)))
  ∧ Z.of_nat (List.length products)
    = Z.min l (Z.max 0 (Z.of_nat (List.length found) - (p - 1) * l)).
Proof.
  intros Hb Hf Hp Hl found products.
  pose proof (search_pageNum_positive _ _ Hp) as Hp1.
  pose proof (search_limitNum_positive _ _ Hl) as Hl1.
  assert (Hw : Query.window (Search.skip page limit) (Search.limitNum limit)
                 found = Some products).
  { unfold Query.window, Search.skip.
    rewrite Hp, Hl, sub_mul_of_Z, !as_count_of_Z.
    destruct (Z.leb_spec 0 ((p - 1) * l)); [|nia].
    destruct (Z.leb_spec 0 l); [|lia]. simpl.
    unfold products. destruct (Z.to_nat l) eqn:En; [lia | reflexivity]. }
  split.
  - unfold Search.handler. rewrite Hb, Hf.
    unfold Search.searchFilter in Hf.
    destruct (RegExp.compile (JS.trim (default "" q))) as [pat|];
      [|discriminate]. injection Hf as Hf.
    assert (Hfind : (let* found := Query.find st f in
                     let* totalResults := Query.countDocuments st f in
                     Ok (found, totalResults))
                    = Ok (List.filter (Query.selects f) st,
                          List.length (List.filter (Query.selects f) st)))
      by (by rewrite <- Hf).
    cbn [mbind option_bind]. rewrite Hfind. fold found. rewrite Hw.
    eexists. reflexivity.
  - assert (Hk : 0 <= (p - 1) * l) by nia.
    unfold products. rewrite length_take, length_drop.
    set (k := (p - 1) * l) in *. lia.
Qed.

End SearchFacts.

(** C10.  On the search route a limit that parses to an integer [n] is
    applied as [max(1, n)], and nothing caps it at 100, where the listing
    route answers 100 for the same parameter.  The answer to a search with
    a term carries page [p] of the matching products in pages of
    [max(1, n)]: as many products as that, or what is left after the
    [(p - 1) * max(1, n)] products of the pages before, or none.  So a
    limit above 100 returns more than 100 products in one page as soon as
    more than 100 products match.  This is for the limits and pages on
    which the arithmetic of the route is exact, below 2^53. *)
Theorem search_limit_lower_bound_only (st : Product.store)
  (q page : option string) (s : string) (f : Query.filter) (p n : Z) :
  Search.blank q = false →
  Search.searchFilter (JS.trim (default "" q)) = Some f →
  Search.pageNum page = JS.of_Z p →
  JS.parseInt (JS.PStr s) = JS.of_Z n →
  n < 2 ^ 53 →
  (p - 1) * Z.max 1 n < 2 ^ 53 →
  let l := Z.max 1 n in
  let total := List.length (List.filter (Query.selects f) st) in
  Search.limitNum (Some s) = JS.of_Z l
  ∧ (100 < n →
     Search.limitNum (Some s) = JS.of_Z n
     ∧ Listing.limitNum (Some s) = JS.of_Z 100)
  ∧ ∃ (info : search_info) (products : list Product.t),
      Search.handler st q page (Some s)
      = Some (mkResponse 200
                (SearchResults info (List.length products) products))
      ∧ totalResults info = total
      ∧ Z.of_nat (List.length products)
        = Z.min l (Z.max 0 (Z.of_nat total - (p - 1) * l))
      ∧ (100 < n → p = 1 → (100 < total)%nat →
         (100 < List.length products)%nat).
Proof.
  intros Hb Hf Hp Hn _ _ l total.
  assert (Hl : Search.limitNum (Some s) = JS.of_Z l).
  { unfold Search.limitNum, JS.with_default. rewrite Hn.
    apply Math_max_of_Z. }
  split; [exact Hl|]. split.
  { intros H100. split; [rewrite Hl; f_equal; lia|].
    rewrite (listing_limitNum_numeric s n Hn). f_equal. lia. }
  destruct (search_handler_numeric st q page (Some s) f p l Hb Hf Hp Hl)
    as [[info Hh] Hlen].
  assert (Hsorted : List.length
                      (Query.sort_by_name (List.filter (Query.selects f) st))
                    = total)
    by apply Permutation_length, merge_sort_Permutation.
  rewrite Hsorted in Hlen.
  exists info. eexists. split; [exact Hh|].
  split; [|split; [exact Hlen|]].
  - apply search_handler_ok in Hh as (f' & Hf' & _ & _ & ->).
    rewrite Hf in Hf'. by injection Hf' as <-.
  - intros H100 -> Htotal. lia.
Qed.

Lemma search_limit_lower_bound_only_witness :
  ∃ info products,
    Search.handler (Sample.items 101) (Some "item") None (Some "150")
    = Some (mkResponse 200
              (SearchResults info (List.length products) products))
    ∧ (100 < List.length products)%nat
    ∧ Search.limitNum (Some "150") = JS.of_Z 150
    ∧ Listing.limitNum (Some "150") = JS.of_Z 100.
Proof.
  destruct (search_limit_lower_bound_only (Sample.items 101) (Some "item")
              None "150" _ 1 150 eq_refl eq_refl eq_refl eq_refl eq_refl
              eq_refl)
    as (_ & Hcap & info & products & Hh & _ & _ & Hmore).
  destruct (Hcap eq_refl) as [Hs Hlist].
  exists info, products. split; [exact Hh|].
  split; [|split; [exact Hs | exact Hlist]].
  apply (Hmore eq_refl eq_refl). vm_compute. lia.
Defined.

(** X16.  A search that answers 200 returns products of the store that
    match the term in their name, description or category, in ascending
    order of name; [results] is their number, at most the limit and at
    most [totalResults], which counts every matching product of the
    store. *)
Theorem search_page_content (st : Product.store) (q page limit : option string)
  (info : search_info) (results : nat) (products : list Product.t) :
  Search.handler st q page limit
  = Some (mkResponse 200 (SearchResults info results products)) →
  ∃ f, Search.searchFilter (JS.trim (default "" q)) = Some f
       ∧ results = List.length products
       ∧ totalResults info = List.length (List.filter (Query.selects f) st)
       ∧ (results <= totalResults info)%nat
       ∧ (∃ l, Search.limitNum limit = JS.of_Z l ∧ Z.of_nat results <= l)
       ∧ Forall (λ p, In p st ∧ Query.selects f p = true) products
       ∧ Sorted Query.name_le products.
Proof.
  intros H. apply search_handler_ok in H as (f & Hf & Hw & -> & ->).
  exists f. split; [assumption|]. split; [reflexivity|].
  split; [reflexivity|]. simpl.
  destruct (window_subset _ _ _ _ Hw) as [Hsub Hlen].
  assert (Hperm : Query.sort_by_name (List.filter (Query.selects f) st)
                  ≡ₚ List.filter (Query.selects f) st)
    by apply merge_sort_Permutation.
  split; [by rewrite <- (Permutation_length Hperm)|]. split; [|split].
  - destruct (window_page _ _ _ _ Hw) as (s' & n' & _ & Hn & ->).
    destruct (search_limitNum_range limit) as [E | [E | (l & Hl & E)]];
      rewrite E in Hn; [discriminate..|].
    exists l. split; [assumption|]. rewrite as_count_of_Z in Hn.
    destruct (Z.leb_spec 0 l); [|discriminate]. injection Hn as <-.
    destruct (Z.to_nat l) eqn:En; [lia|]. rewrite <- En, length_take. lia.
  - apply List.Forall_forall. intros p Hp.
    apply (proj2 (list_elem_of_In _ _)), Hsub in Hp. rewrite Hperm in Hp.
    apply (proj1 (list_elem_of_In _ _)), filter_In in Hp. exact Hp.
  - eapply window_sorted; [exact Hw|]. apply sort_by_name_sorted.
Qed.

Lemma search_page_content_witness :
  ∃ info results products f,
    Search.handler (Sample.items 3) (Some "item") None (Some "2")
    = Some (mkResponse 200 (SearchResults info results products))
    ∧ Search.searchFilter "item" = Some f
    ∧ results = List.length products
    ∧ (results <= totalResults info)%nat.
Proof.
  eexists _, _, _.
  destruct (search_page_content (Sample.items 3) (Some "item") None (Some "2")
              _ _ _ eq_refl) as (f & Hf & Hr & _ & Hle & _).
  exists f. split; [reflexivity|]. split; [exact Hf|].
  split; [exact Hr | exact Hle].
Defined.

(** X17.  In a search answer with a numeric page [p] and limit [l],
    [results] is the part of the matching products that falls on page [p]:
    [l] of them, or what is left after the [(p - 1) * l] products of the
    pages before, or none; [totalPages] is the least number of pages that
    hold them all, [hasNext] tells that products remain after this page
    and [hasPrev] that it is not the first. *)
Theorem search_navigation (st : Product.store) (q page limit : option string)
  (info : search_info) (results : nat) (products : list Product.t)
  (p l : Z) :
  Search.handler st q page limit
  = Some (mkResponse 200 (SearchResults info results products)) →
  Search.pageNum page = JS.of_Z p →
  Search.limitNum limit = JS.of_Z l →
  let total := Z.of_nat (totalResults info) in
  currentPage info = JS.of_Z p
  ∧ Z.of_nat results = Z.min l (Z.max 0 (total - (p - 1) * l))
  ∧ (∃ k, totalPages info = JS.of_Z k ∧ (k - 1) * l < total <= k * l)
  ∧ (hasNext info = true ↔ p * l < total)
  ∧ (hasPrev info = true ↔ 1 < p).
Proof.
  intros H Hp Hl. apply search_handler_ok in H as (f & Hf & Hw & -> & ->).
  cbn [totalResults currentPage totalPages hasNext hasPrev].
  set (found := List.filter (Query.selects f) st) in *.
  assert (Hl1 : 0 < l).
  { pose proof (search_limitNum_positive _ _ Hl). lia. }
  pose proof (search_pageNum_positive _ _ Hp) as Hp1.
  destruct (ceil_pages (Z.of_nat (List.length found)) l Hl1)
    as (k & Hk & Hbounds).
  rewrite Hp, Hl, Hk, !lt_of_Z, (more_pages p k l _ Hl1 Hbounds).
  split; [reflexivity|]. split; [|split; [by exists k|]].
  - unfold Search.skip in Hw. rewrite Hp, Hl, sub_mul_of_Z in Hw.
    apply window_page in Hw as (s' & n' & Hs & Hn & ->).
    rewrite as_count_of_Z in Hs, Hn.
    destruct (Z.leb_spec 0 ((p - 1) * l)); [|nia].
    destruct (Z.leb_spec 0 l); [|lia].
    injection Hs as <-. injection Hn as <-.
    assert (Hlen : List.length (Query.sort_by_name found) = List.length found)
      by apply Permutation_length, merge_sort_Permutation.
    destruct (Z.to_nat l) eqn:En; [lia|]. rewrite <- En.
    rewrite length_take, length_drop, Hlen. lia.
  - split; apply Z.ltb_lt.
Qed.

Lemma search_navigation_witness :
  ∃ info results products,
    Search.handler (Sample.items 3) (Some "item") (Some "2") (Some "2")
    = Some (mkResponse 200 (SearchResults info results products))
    ∧ Z.of_nat results
      = Z.min 2 (Z.max 0 (Z.of_nat (totalResults info) - (2 - 1) * 2)).
Proof.
  eexists _, _, _. split; [reflexivity|].
  exact (proj1 (proj2 (search_navigation (Sample.items 3) (Some "item")
                         (Some "2") (Some "2") _ _ _ 2 2 eq_refl eq_refl
                         eq_refl))).
Defined.

(** X18.  A search is answered 400 exactly when [q] is missing, empty or
    made of white space only, whatever the store and the other parameters
    hold. *)
Theorem search_requires_term (st : Product.store)
  (q page limit : option string) :
  (q = None ∨ ∃ s, q = Some s ∧ JS.trim s = "")
  ↔ Search.handler st q page limit
    = Some (mkResponse 400
              (MessageWithExample "Search query 'q' is required"
                 "/api/products/search?q=phone&page=1&limit=5")).
Proof.
  unfold Search.handler.
  assert (Hb : Search.blank q = true
               ↔ (q = None ∨ ∃ s, q = Some s ∧ JS.trim s = "")).
  { destruct q as [s|]; simpl; [|split; auto].
    rewrite orb_true_iff. split.
    - intros [H|H]; right; exists s; split; try reflexivity;
        [by destruct s | by destruct (JS.trim s)].
    - intros [H | (s' & [= <-] & H)]; [discriminate|]. right. by rewrite H. }
  destruct (Search.blank q).
  - split; [reflexivity | intros _; by apply Hb].
  - split; [intros H; apply Hb in H; discriminate H|].
    destruct (Search.searchFilter _) as [f|]; [|discriminate]. simpl.
    destruct (let* found := Query.find st f in
              let* totalResults := Query.countDocuments st f in
              Ok (found, totalResults)) as [[found total]|e];
      [|discriminate].
    destruct (Query.window _ _ _); discriminate.
Qed.

(** *** A term without pattern characters is searched as a substring *)

Section PlainTerm.

Import RegExp.

Lemma tokenize_literal (c : string) :
  plain c = true → tokenize c = Some (literal_tokens c).
Proof.
  induction c as [|ch c IH]; [reflexivity|].
  intros H. apply andb_true_iff in H as [Hch Hc].
  apply negb_true_iff, classify_plain in Hch as [Hcl Hbs].
  rewrite (tokenize_cons _ _ Hbs), Hcl, (IH Hc). reflexivity.
Qed.

Lemma assemble_literal_tokens (c : string) :
  assemble (literal_tokens c) = Some (literal_terms c).
Proof.
  induction c as [|ch c IH]; [reflexivity|].
  change (assemble (TAtom (Char ch) :: literal_tokens c)
          = Some (Atom (Char ch) One :: literal_terms c)).
  destruct c as [|ch' c]; [reflexivity|].
  simpl in *. by rewrite IH.
Qed.

Lemma compile_literal (c : string) :
  plain c = true → compile c = Some (literal_terms c).
Proof.
  intros H. unfold compile. rewrite (tokenize_literal c H). simpl.
  apply assemble_literal_tokens.
Qed.

Lemma match_here_literal_prefix (t s : string) (b : bool) :
  match_here true (literal_terms t) b s = true
  ↔ ∃ rest, fold_case s = String.append (fold_case t) rest.
Proof.
  revert s b. induction t as [|ch t IH]; intros s b; simpl.
  - split; [eauto | reflexivity].
  - destruct s as [|x s]; simpl.
    + split; [discriminate | intros [rest H]; discriminate H].
    + rewrite andb_true_iff, IH, Ascii.eqb_eq. split.
      * intros [-> [rest ->]]. eauto.
      * intros [rest [= -> ->]]. eauto.
Qed.

Lemma search_literal (t s : string) (b : bool) :
  search true (literal_terms t) b s = true ↔ occurs t s.
Proof.
  unfold occurs. split.
  - revert b. induction s as [|x s IH]; intros b; simpl.
    + rewrite orb_false_r. intros H.
      apply match_here_literal_prefix in H as [rest H].
      exists "", rest. exact H.
    + rewrite orb_true_iff. intros [H|H].
      * apply match_here_literal_prefix in H as [rest H].
        exists "", rest. exact H.
      * apply IH in H as (pre & post & H).
        exists (String (canonicalize x) pre), post. simpl. by rewrite H.
  - intros (pre & post & H). revert s b H.
    induction pre as [|c pre IH]; intros s b H.
    + assert (Hm : match_here true (literal_terms t) b s = true)
        by (apply match_here_literal_prefix; eauto).
      destruct s; simpl; rewrite Hm; reflexivity.
    + destruct s as [|x s]; [discriminate H|]. simpl in H.
      injection H as _ H. simpl. rewrite (IH s false H).
      apply orb_true_r.
Qed.

End PlainTerm.

(** X19.  For a term without pattern characters, the search filter selects
    exactly the products in whose name, description or category the term
    occurs, letter case apart. *)
Theorem search_plain_term_is_substring (term : string) :
  plain term = true →
  ∃ f, Search.searchFilter term = Some f
       ∧ ∀ p, Query.selects f p = true
              ↔ occurs term (Product.name p)
                ∨ occurs term (Product.description p)
                ∨ occurs term (Product.category p).
Proof.
  intros H. unfold Search.searchFilter. rewrite (compile_literal term H).
  simpl. eexists. split; [reflexivity|]. intros p. simpl.
  unfold Query.regex_matches, RegExp.test. simpl.
  rewrite andb_true_r, orb_false_r, !orb_true_iff, !search_literal.
  reflexivity.
Qed.

Lemma search_plain_term_is_substring_witness :
  ∃ f, Search.searchFilter "phone" = Some f
       ∧ ∀ p, Query.selects f p = true
              ↔ occurs "phone" (Product.name p)
                ∨ occurs "phone" (Product.description p)
                ∨ occurs "phone" (Product.category p).
Proof. apply (search_plain_term_is_substring "phone"). reflexivity. Defined.

(** ** More on the statistics *)

Section StatsFacts.

Import Stats.

(** The answer of the statistics route, spelled out. *)
Lemma stats_handler_ok (now : Z) (st : Product.store) :
  ∃ l, categoryStats st = Ok l
       ∧ handler now st
         = mkResponse 200
             (Statistics
                {| stats_summary :=
                     {| totalProducts := List.length st;
                        inStock :=
                          List.length
                            (List.filter
                               (Query.selects [Query.CInStock true]) st);
                        outOfStock :=
                          List.length
                            (List.filter
                               (Query.selects [Query.CInStock false]) st);
                        summary_inStockPercentage :=
                          if (0 <? List.length st)%nat
                          then PctText
                                 (JS.toFixed2
                                    (JS.mul
                                       (JS.div
                                          (JS.of_Z
                                             (Z.of_nat
                                                (List.length
                                                   (List.filter
                                                      (Query.selects
                                                         [Query.CInStock true])
                                                      st))))
                                          (JS.of_Z
                                             (Z.of_nat (List.length st))))
                                       (JS.of_Z 100)))
                          else PctNumber 0 |};
                   priceStatistics :=
                     match priceStats st with
                     | o :: _ =>
                         Some {| ps_averagePrice :=
                                   round_cents (o_averagePrice o);
                                 ps_minPrice := o_minPrice o;
                                 ps_maxPrice := o_maxPrice o;
                                 ps_totalInventoryValue :=
                                   round_cents (o_totalInventoryValue o) |}
                     | [] => None
                     end;
                   categories := l;
                   lastUpdated := now |}).
Proof.
  destruct (categoryStats_ok st) as (l & Hl & _).
  exists l. split; [assumption|].
  unfold handler, statistics. rewrite countDocuments_all. simpl.
  rewrite Hl. reflexivity.
Qed.

(** The entries of the answer carry the counters of their buckets. *)
Lemma project_fields (g : group) (c : category_stat) :
  project g = Ok c →
  cs_category c = g_id g ∧ count c = g_count g
  ∧ inStockCount c = g_inStock g ∧ outOfStockCount c = g_outOfStock g
  ∧ minPrice c = g_min g ∧ maxPrice c = g_max g.
Proof.
  unfold project. destruct (divide _ _); [|discriminate]. simpl.
  intros [= <-]. simpl. auto 10.
Qed.

Lemma categoryStats_entries (st : Product.store) (l : list category_stat) :
  categoryStats st = Ok l →
  ∃ gs, gs ≡ₚ group_by_category st ∧ Forall2 (λ g c, project g = Ok c) gs l.
Proof.
  unfold categoryStats. intros H. apply traverse_Ok in H.
  exists (sort_by_count (group_by_category st)).
  split; [apply merge_sort_Permutation | assumption].
Qed.

Lemma entry_bucket (gs : list group) (l : list category_stat)
  (e : category_stat) :
  Forall2 (λ g c, project g = Ok c) gs l → In e l →
  ∃ g, In g gs ∧ project g = Ok e.
Proof.
  induction 1 as [|g c gs l Hgc _ IH]; simpl; [tauto|].
  intros [<- | H]; [eauto|]. destruct (IH H) as (g' & ? & ?). eauto.
Qed.

Lemma entries_categories (gs : list group) (l : list category_stat) :
  Forall2 (λ g c, project g = Ok c) gs l →
  map cs_category l = map g_id gs.
Proof.
  induction 1 as [|g c gs l Hgc _ IH]; simpl; [reflexivity|].
  apply project_fields in Hgc as [-> _]. by rewrite IH.
Qed.

(** Counting: what one more product adds to the counters of a category. *)
Lemma group_insert_total (f : group → nat) (w : Product.t → nat)
  (c : string) (p : Product.t) (gs : list group) :
  f (group_new p) = w p →
  (∀ g, f (group_add p g) = (f g + w p)%nat) →
  group_total f c (group_insert p gs)
  = (group_total f c gs
     + if String.eqb (Product.category p) c then w p else 0)%nat.
Proof.
  intros Hnew Hadd. unfold group_total.
  induction gs as [|g gs IH]; simpl.
  - rewrite Hnew. lia.
  - destruct (String.eqb_spec (g_id g) (Product.category p)) as [E|E]; simpl.
    + rewrite Hadd, E.
      destruct (String.eqb (Product.category p) c); lia.
    + rewrite IH. lia.
Qed.

Lemma group_fold_total (f : group → nat) (w : Product.t → bool)
  (c : string) (st : Product.store) (acc : list group) :
  (∀ p, f (group_new p) = if w p then 1%nat else 0%nat) →
  (∀ p g, f (group_add p g) = (f g + if w p then 1 else 0)%nat) →
  group_total f c (fold_left (λ gs p, group_insert p gs) st acc)
  = (group_total f c acc + tally w c st)%nat.
Proof.
  intros Hnew Hadd. revert acc. unfold tally.
  induction st as [|p st IH]; intros acc; simpl; [lia|].
  rewrite IH, (group_insert_total f (λ p, if w p then 1%nat else 0%nat))
    by auto.
  destruct (String.eqb (Product.category p) c), (w p); simpl; lia.
Qed.

(** The identities of the buckets. *)
Lemma group_insert_ids (p : Product.t) (gs : list group) (c : string) :
  In c (map g_id (group_insert p gs))
  ↔ In c (map g_id gs) ∨ c = Product.category p.
Proof.
  induction gs as [|g gs IH]; simpl; [intuition|].
  destruct (String.eqb_spec (g_id g) (Product.category p)) as [E|E]; simpl.
  - rewrite <- E. intuition.
  - rewrite IH. intuition.
Qed.

Lemma group_insert_NoDup (p : Product.t) (gs : list group) :
  List.NoDup (map g_id gs) → List.NoDup (map g_id (group_insert p gs)).
Proof.
  induction gs as [|g gs IH]; simpl.
  - intros _. apply List.NoDup_cons; [simpl; tauto | apply List.NoDup_nil].
  - intros H. apply List.NoDup_cons_iff in H as [Hg Hgs].
    destruct (String.eqb_spec (g_id g) (Product.category p)) as [E|E]; simpl.
    + by apply List.NoDup_cons.
    + apply List.NoDup_cons; [|by apply IH].
      rewrite group_insert_ids. intros [H|H]; [tauto | congruence].
Qed.

Lemma group_fold_ids (st : Product.store) (acc : list group) (c : string) :
  In c (map g_id (fold_left (λ gs p, group_insert p gs) st acc))
  ↔ In c (map g_id acc) ∨ ∃ p, In p st ∧ Product.category p = c.
Proof.
  revert acc. induction st as [|p st IH]; intros acc; simpl.
  - split; [auto | intros [H | (p & [] & _)]; exact H].
  - rewrite IH, group_insert_ids. split.
    + intros [[H|H]|(x & Hx & Hc)]; eauto.
    + intros [H|(x & [<-|Hx] & Hc)]; eauto.
Qed.

Lemma group_fold_NoDup (st : Product.store) (acc : list group) :
  List.NoDup (map g_id acc) →
  List.NoDup (map g_id (fold_left (λ gs p, group_insert p gs) st acc)).
Proof.
  revert acc. induction st as [|p st IH]; intros acc H; simpl; [assumption|].
  by apply IH, group_insert_NoDup.
Qed.

Lemma group_total_single (f : group → nat) (gs : list group) (g : group) :
  List.NoDup (map g_id gs) → In g gs → group_total f (g_id g) gs = f g.
Proof.
  unfold group_total. induction gs as [|h gs IH]; simpl; [tauto|].
  intros Hnd. apply List.NoDup_cons_iff in Hnd as [Hh Hgs].
  assert (Hzero : ∀ c, ¬ In c (map g_id gs) →
                       sum_list_with
                         (λ g, if String.eqb (g_id g) c then f g else 0%nat)
                         gs = 0%nat).
  { clear. intros c. induction gs as [|k gs IH]; simpl; [reflexivity|].
    intros H. destruct (String.eqb_spec (g_id k) c); [tauto|].
    rewrite IH; tauto. }
  intros [<- | Hg].
  - rewrite String.eqb_refl, (Hzero _ Hh). lia.
  - destruct (String.eqb_spec (g_id h) (g_id g)) as [E|E].
    + destruct Hh. rewrite E. by apply in_map.
    + by rewrite IH.
Qed.

End StatsFacts.

Section StatsCounts.

Import Stats.

Lemma cond_eq_sum (p : Product.t) :
  (cond_eq true p + cond_eq false p = 1)%nat.
Proof. unfold cond_eq. by destruct (Product.inStock p). Qed.

Lemma group_insert_balanced (p : Product.t) (gs : list group) :
  Forall balanced gs → Forall balanced (group_insert p gs).
Proof.
  pose proof (cond_eq_sum p) as Hp.
  induction 1 as [|g gs Hg Hgs IH]; simpl.
  - constructor; [|constructor]. unfold balanced. simpl. lia.
  - destruct (String.eqb (g_id g) (Product.category p)).
    + constructor; [|assumption]. unfold balanced in *. simpl. lia.
    + by constructor.
Qed.

Lemma group_by_category_balanced (st : Product.store) :
  Forall balanced (group_by_category st).
Proof.
  unfold group_by_category.
  assert (H : Forall balanced (@nil group)) by constructor.
  revert H. generalize (@nil group).
  induction st as [|p st IH]; intros acc H; simpl; [assumption|].
  by apply IH, group_insert_balanced.
Qed.

Lemma stock_counts_add_up (st : Product.store) :
  (List.length (List.filter (Query.selects [Query.CInStock true]) st)
   + List.length (List.filter (Query.selects [Query.CInStock false]) st)
   = List.length st)%nat.
Proof.
  induction st as [|p st IH]; simpl; [reflexivity|].
  destruct (Product.inStock p); simpl; lia.
Qed.

End StatsCounts.

(** X20.  In the statistics the stock counters add up: [inStock] and
    [outOfStock] of the summary to [totalProducts], and [inStockCount] and
    [outOfStockCount] of every category to its [count]. *)
Theorem stats_stock_counts_add_up (now : Z) (st : Product.store) :
  ∃ s, Stats.handler now st = mkResponse 200 (Statistics s)
       ∧ (inStock (stats_summary s) + outOfStock (stats_summary s)
          = totalProducts (stats_summary s))%nat
       ∧ Forall (λ e, (inStockCount e + outOfStockCount e = count e)%nat)
           (categories s).
Proof.
  destruct (stats_handler_ok now st) as (l & Hl & ->).
  eexists. split; [reflexivity|]. simpl. split; [apply stock_counts_add_up|].
  destruct (categoryStats_entries st l Hl) as (gs & Hperm & Hproj).
  apply List.Forall_forall. intros e He.
  destruct (entry_bucket gs l e Hproj He) as (g & Hg & Hge).
  apply project_fields in Hge as (_ & -> & -> & -> & _).
  assert (Hb : Forall balanced gs).
  { rewrite Hperm. apply group_by_category_balanced. }
  rewrite List.Forall_forall in Hb. by apply Hb.
Qed.

(** X21.  The statistics have one entry for each category of the store and
    no other: the categories of the entries are distinct, they are the
    categories of the products, and the [count], [inStockCount] and
    [outOfStockCount] of an entry are the numbers of products of its
    category, of those in stock and of those out of stock. *)
Theorem stats_categories_partition (now : Z) (st : Product.store) :
  ∃ s, Stats.handler now st = mkResponse 200 (Statistics s)
       ∧ List.NoDup (map cs_category (categories s))
       ∧ (∀ c, In c (map cs_category (categories s))
               ↔ ∃ p, In p st ∧ Product.category p = c)
       ∧ Forall (λ e,
           count e = tally (λ _, true) (cs_category e) st
           ∧ inStockCount e = tally Product.inStock (cs_category e) st
           ∧ outOfStockCount e
             = tally (λ p, negb (Product.inStock p)) (cs_category e) st)
           (categories s).
Proof.
  destruct (stats_handler_ok now st) as (l & Hl & ->).
  eexists. split; [reflexivity|]. simpl.
  destruct (categoryStats_entries st l Hl) as (gs & Hperm & Hproj).
  rewrite (entries_categories gs l Hproj).
  assert (Hids : map Stats.g_id gs ≡ₚ map Stats.g_id (Stats.group_by_category st))
    by (by apply Permutation_map).
  assert (Hnd : List.NoDup (map Stats.g_id (Stats.group_by_category st))).
  { apply group_fold_NoDup. apply List.NoDup_nil. }
  split; [|split].
  - eapply Permutation_NoDup; [symmetry; exact Hids | exact Hnd].
  - intros c. split.
    + intros H. eapply Permutation_in in H; [|exact Hids].
      apply group_fold_ids in H as [[]|H]. exact H.
    + intros H. eapply Permutation_in; [symmetry; exact Hids|].
      apply group_fold_ids. by right.
  - apply List.Forall_forall. intros e He.
    destruct (entry_bucket gs l e Hproj He) as (g & Hg & Hge).
    apply project_fields in Hge as (-> & -> & -> & -> & _).
    assert (Hgin : In g (Stats.group_by_category st))
      by (eapply Permutation_in; [exact Hperm | exact Hg]).
    rewrite <- (group_total_single Stats.g_count _ g Hnd Hgin).
    rewrite <- (group_total_single Stats.g_inStock _ g Hnd Hgin).
    rewrite <- (group_total_single Stats.g_outOfStock _ g Hnd Hgin).
    unfold Stats.group_by_category.
    rewrite (group_fold_total Stats.g_count (λ _, true));
      [|intros; reflexivity | intros; simpl; lia].
    rewrite (group_fold_total Stats.g_inStock Product.inStock);
      [|intros p; simpl; unfold Stats.cond_eq; by destruct (Product.inStock p)
       |intros p k; simpl; unfold Stats.cond_eq;
        by destruct (Product.inStock p)].
    rewrite (group_fold_total Stats.g_outOfStock
               (λ p, negb (Product.inStock p)));
      [|intros p; simpl; unfold Stats.cond_eq; by destruct (Product.inStock p)
       |intros p k; simpl; unfold Stats.cond_eq;
        by destruct (Product.inStock p)].
    auto.
Qed.

Section StatsPrices.

Import Stats.
Local Open Scope Q_scope.

Lemma Qmin'_spec (a b : Q) :
  Qmin' a b <= a ∧ Qmin' a b <= b ∧ (Qmin' a b = a ∨ Qmin' a b = b).
Proof.
  unfold Qmin'. destruct (Qle_bool a b) eqn:E.
  - apply Qle_bool_iff in E. split; [apply Qle_refl|]. auto.
  - assert (b < a).
    { apply Qnot_le_lt. intros H. apply Qle_bool_iff in H. congruence. }
    split; [by apply Qlt_le_weak|]. split; [apply Qle_refl | auto].
Qed.

Lemma Qmax'_spec (a b : Q) :
  a <= Qmax' a b ∧ b <= Qmax' a b ∧ (Qmax' a b = a ∨ Qmax' a b = b).
Proof.
  unfold Qmax'. destruct (Qle_bool a b) eqn:E.
  - apply Qle_bool_iff in E. split; [assumption|].
    split; [apply Qle_refl | auto].
  - assert (b < a).
    { apply Qnot_le_lt. intros H. apply Qle_bool_iff in H. congruence. }
    split; [apply Qle_refl|]. split; [by apply Qlt_le_weak | auto].
Qed.

(** One more product of another category leaves a range as it is. *)
Lemma price_range_other (c : string) (lo hi : Q) (st : Product.store)
  (p : Product.t) :
  Product.category p ≠ c →
  price_range c lo hi st → price_range c lo hi (st ++ [p])%list.
Proof.
  intros Hne ((x & Hx & Hxc & Hxp) & (y & Hy & Hyc & Hyp) & Hb).
  split; [|split].
  - exists x. split; [apply in_or_app; by left | auto].
  - exists y. split; [apply in_or_app; by left | auto].
  - intros z Hz Hzc. apply in_app_or in Hz as [Hz | [<- | []]];
      [by apply Hb | congruence].
Qed.

(** One more product of the category widens the range to its price. *)
Lemma price_range_add (g : group) (st : Product.store) (p : Product.t) :
  Product.category p = g_id g →
  price_range (g_id g) (g_min g) (g_max g) st →
  price_range (g_id g) (Qmin' (g_min g) (Product.price p))
    (Qmax' (g_max g) (Product.price p)) (st ++ [p])%list.
Proof.
  intros Hc ((x & Hx & Hxc & Hxp) & (y & Hy & Hyc & Hyp) & Hb).
  destruct (Qmin'_spec (g_min g) (Product.price p)) as (Hm1 & Hm2 & Hm3).
  destruct (Qmax'_spec (g_max g) (Product.price p)) as (HM1 & HM2 & HM3).
  split; [|split].
  - destruct Hm3 as [-> | ->].
    + exists x. split; [apply in_or_app; by left | auto].
    + exists p. split; [apply in_or_app; right; by left | auto].
  - destruct HM3 as [-> | ->].
    + exists y. split; [apply in_or_app; by left | auto].
    + exists p. split; [apply in_or_app; right; by left | auto].
  - intros z Hz Hzc. apply in_app_or in Hz as [Hz | [<- | []]].
    + destruct (Hb z Hz Hzc) as [Hlo Hhi]. split.
      * eapply Qle_trans; [exact Hm1 | exact Hlo].
      * eapply Qle_trans; [exact Hhi | exact HM1].
    + auto.
Qed.

Lemma price_range_new (st : Product.store) (p : Product.t) :
  (∀ x, In x st → Product.category x ≠ Product.category p) →
  price_range (Product.category p) (Product.price p) (Product.price p)
    (st ++ [p])%list.
Proof.
  intros Hnone. split; [|split].
  - exists p. split; [apply in_or_app; right; by left | auto].
  - exists p. split; [apply in_or_app; right; by left | auto].
  - intros z Hz Hzc. apply in_app_or in Hz as [Hz | [<- | []]].
    + by destruct (Hnone z Hz).
    + split; apply Qle_refl.
Qed.

Lemma group_insert_range (st : Product.store) (p : Product.t)
  (gs : list group) :
  List.NoDup (map g_id gs) →
  (∀ x, In x st → Product.category x = Product.category p →
        In (Product.category p) (map g_id gs)) →
  (∀ g, In g gs → price_range (g_id g) (g_min g) (g_max g) st) →
  ∀ g, In g (group_insert p gs) →
       price_range (g_id g) (g_min g) (g_max g) (st ++ [p])%list.
Proof.
  induction gs as [|g gs IH]; simpl; intros Hnd Hcover Hgs h Hh.
  - destruct Hh as [<- | []]. apply price_range_new.
    intros x Hx Hc. by destruct (Hcover x Hx Hc).
  - apply List.NoDup_cons_iff in Hnd as [Hgid Hnd].
    destruct (String.eqb_spec (g_id g) (Product.category p)) as [E|E].
    + destruct Hh as [<- | Hh]; [apply (price_range_add g); auto|].
      apply price_range_other; [|by auto].
      intros Hc. destruct Hgid. rewrite E, Hc. by apply in_map.
    + destruct Hh as [<- | Hh];
        [apply price_range_other; [congruence | by auto]|].
      apply IH; auto. intros x Hx Hc.
      destruct (Hcover x Hx Hc) as [H|H]; [congruence | exact H].
Qed.

Lemma group_fold_range (st done : Product.store) (acc : list group) :
  List.NoDup (map g_id acc) →
  (∀ x, In x done → In (Product.category x) (map g_id acc)) →
  (∀ g, In g acc → price_range (g_id g) (g_min g) (g_max g) done) →
  ∀ g, In g (fold_left (λ gs p, group_insert p gs) st acc) →
       price_range (g_id g) (g_min g) (g_max g) (done ++ st)%list.
Proof.
  revert done acc. induction st as [|p st IH]; intros done acc Hnd Hc Hr g Hg;
    simpl in *.
  - rewrite app_nil_r. by apply Hr.
  - change (p :: st) with ([p] ++ st)%list. rewrite app_assoc.
    apply (IH (done ++ [p])%list (group_insert p acc)); try assumption.
    + by apply group_insert_NoDup.
    + intros x Hx. apply group_insert_ids.
      apply in_app_or in Hx as [Hx | [<- | []]]; auto.
    + apply group_insert_range; auto. intros x Hx <-. by apply Hc.
Qed.

Lemma group_by_category_range (st : Product.store) (g : group) :
  In g (group_by_category st) →
  price_range (g_id g) (g_min g) (g_max g) st.
Proof.
  intros Hg. apply (group_fold_range st [] []); simpl; try tauto.
  apply List.NoDup_nil.
Qed.

(** The bucket of all products. *)
Lemma overall_fold_range (st done : Product.store) (g : group) :
  overall_range (g_min g) (g_max g) done →
  let g' := fold_left overall_add st g in
  overall_range (g_min g') (g_max g') (done ++ st)%list.
Proof.
  revert done g. induction st as [|p st IH]; intros done g Hg; simpl.
  - by rewrite app_nil_r.
  - change (p :: st) with ([p] ++ st)%list. rewrite app_assoc.
    apply IH. unfold overall_add, group_add. simpl.
    destruct Hg as ((x & Hx & Hxp) & (y & Hy & Hyp) & Hb).
    destruct (Qmin'_spec (g_min g) (Product.price p)) as (Hm1 & Hm2 & Hm3).
    destruct (Qmax'_spec (g_max g) (Product.price p)) as (HM1 & HM2 & HM3).
    split; [|split].
    + destruct Hm3 as [-> | ->].
      * exists x. split; [apply in_or_app; by left | auto].
      * exists p. split; [apply in_or_app; right; by left | auto].
    + destruct HM3 as [-> | ->].
      * exists y. split; [apply in_or_app; by left | auto].
      * exists p. split; [apply in_or_app; right; by left | auto].
    + intros z Hz. apply in_app_or in Hz as [Hz | [<- | []]].
      * destruct (Hb z Hz) as [Hlo Hhi]. split.
        -- eapply Qle_trans; [exact Hm1 | exact Hlo].
        -- eapply Qle_trans; [exact Hhi | exact HM1].
      * auto.
Qed.

Lemma priceStats_range (st : Product.store) :
  match priceStats st with
  | [] => st = []
  | o :: _ => st ≠ [] ∧ overall_range (o_minPrice o) (o_maxPrice o) st
  end.
Proof.
  destruct st as [|p st]; simpl; [reflexivity|]. split; [discriminate|].
  apply (overall_fold_range st [p] (group_new p)). simpl.
  split; [|split].
  - exists p. split; [by left | reflexivity].
  - exists p. split; [by left | reflexivity].
  - intros z [<- | []]. split; apply Qle_refl.
Qed.

End StatsPrices.

(** X22.  In the statistics [minPrice] and [maxPrice] of a category are the
    least and the greatest price among the products of that category, and
    those of [priceStatistics] the least and the greatest price of the
    store; [priceStatistics] is the empty object exactly when the store is
    empty. *)
Theorem stats_price_ranges (now : Z) (st : Product.store) :
  ∃ s, Stats.handler now st = mkResponse 200 (Statistics s)
       ∧ (priceStatistics s = None ↔ st = [])
       ∧ (∀ ps, priceStatistics s = Some ps →
                overall_range (ps_minPrice ps) (ps_maxPrice ps) st)
       ∧ Forall (λ e, price_range (cs_category e) (minPrice e) (maxPrice e) st)
           (categories s).
Proof.
  destruct (stats_handler_ok now st) as (l & Hl & ->).
  eexists. split; [reflexivity|]. simpl.
  pose proof (priceStats_range st) as Hps.
  destruct (Stats.priceStats st) as [|o os].
  - split; [tauto|]. split; [discriminate|]. subst st.
    injection Hl as <-. constructor.
  - destruct Hps as [Hne Hr]. split; [split; [discriminate | tauto]|].
    split; [by intros ps [= <-]|].
    destruct (categoryStats_entries st l Hl) as (gs & Hperm & Hproj).
    apply List.Forall_forall. intros e He.
    destruct (entry_bucket gs l e Hproj He) as (g & Hg & Hge).
    apply project_fields in Hge as (-> & _ & _ & _ & -> & ->).
    apply group_by_category_range.
    eapply Permutation_in; [exact Hperm | exact Hg].
Qed.
